(** * Smart-Stay: the hotel relevance scorer of [GET /api/hotels/search]

    A shallow embedding of the handler in [routes/ai.js] (lines 780-915)
    and of the parts of the JavaScript platform it calls
    ([String.prototype.toLowerCase], [includes], [split], [parseInt],
    [Array.prototype.sort], [filter], [slice]), followed by the properties
    the specification states about it.

    Modelling conventions.
    - A JavaScript string is a [string] (a sequence of 8-bit characters);
      [toLowerCase] is the ASCII case mapping, other characters are kept.
    - A JavaScript number that holds a price is a rational [Q]: the handler
      only compares prices with constants, and the order of finite doubles is
      the order of the rationals they denote.
    - A field the handler guards with [|| ''] or [&&] is an [option]. *)

From Stdlib Require Import ZArith QArith List String Ascii Bool Lia.
From Stdlib Require Import Sorting.Sorted Sorting.Permutation.
From Stdlib Require DecimalString DecimalN DecimalPos.
Import ListNotations.

Local Open Scope string_scope.
Local Open Scope Z_scope.

(** ** JavaScript strings *)

Module JSString.

(** [c.toLowerCase()] on one ASCII character: 'A'..'Z' move to 'a'..'z'. *)
Definition lower_ascii (c : ascii) : ascii :=
  let n := N_of_ascii c in
  if ((65 <=? n) && (n <=? 90))%N then ascii_of_N (n + 32) else c.

(** [s.toLowerCase()] *)
Fixpoint toLowerCase (s : string) : string :=
  match s with
  | EmptyString => EmptyString
  | String c s' => String (lower_ascii c) (toLowerCase s')
  end.

(** [s.includes(sub)]: [sub] occurs in [s] at some position. *)
Fixpoint includes (s sub : string) : bool :=
  if String.prefix sub s then true
  else match s with
       | EmptyString => false
       | String _ s' => includes s' sub
       end.

(** [s.split(sep)[0]] for a one-character separator: the characters of [s]
    before the first occurrence of [sep] (all of [s] when there is none). *)
Fixpoint split_head (sep : ascii) (s : string) : string :=
  match s with
  | EmptyString => EmptyString
  | String c s' =>
      if Ascii.eqb c sep then EmptyString else String c (split_head sep s')
  end.

(** [s || ''] for a field that may be missing. *)
Definition or_empty (s : option string) : string :=
  match s with
  | Some v => v
  | None => EmptyString
  end.

(** A string is truthy when it is present and not empty. *)
Definition truthy (s : option string) : bool :=
  match s with
  | Some (String _ _) => true
  | _ => false
  end.

(** White space removed by [trim] and skipped by [parseInt]
    (TAB, LF, VT, FF, CR, SP). *)
Definition is_space (c : ascii) : bool :=
  let n := N_of_ascii c in
  ((n =? 32) || ((9 <=? n) && (n <=? 13)))%N.

Fixpoint trimStart (s : string) : string :=
  match s with
  | EmptyString => EmptyString
  | String c s' => if is_space c then trimStart s' else s
  end.

(** Removes trailing white space: a character is dropped when it is a space
    and nothing but spaces follows. *)
Fixpoint trimEnd (s : string) : string :=
  match s with
  | EmptyString => EmptyString
  | String c s' =>
      match trimEnd s' with
      | EmptyString => if is_space c then EmptyString else String c EmptyString
      | t => String c t
      end
  end.

Definition trim (s : string) : string := trimEnd (trimStart s).

(** The relation the specification calls "is a substring of". *)
Definition Substring (sub s : string) : Prop :=
  exists l r, s = l ++ sub ++ r.

(** "[sub] is a case-insensitive substring of [s]". *)
Definition CISubstring (sub s : string) : Prop :=
  Substring (toLowerCase sub) (toLowerCase s).

End JSString.
Import JSString.

(** ** Data model *)

(** A document of the [Listing] collection, as [.lean()] returns it
    ([models/listing.js]: title, description, image, price, location,
    country, amenities). *)
Record Listing := mkListing {
  _id : string;
  title : option string;
  description : option string;
  image : option string;
  price : Q;
  location : option string;
  country : option string;
  amenities : option (list string)
}.

(** An element of the [hotels] array: a listing, extended with [matchScore]
    by [{ ...hotel, matchScore: ... }] when a query was scored. *)
Record Hotel := mkHotel {
  doc : Listing;
  matchScore : option Z
}.

(** A document as read from the collection: no [matchScore] field. *)
Definition lean (l : Listing) : Hotel := mkHotel l None.

(** ** Price comparisons *)

Definition Qltb (x y : Q) : bool := negb (Qle_bool y x).
Definition Qleb (x y : Q) : bool := Qle_bool x y.

(** ** The scorer *)

Definition keywords : list string :=
  ["pool"; "wifi"; "parking"; "beach"; "ac"; "air conditioning";
   "kitchen"; "gym"; "spa"; "garden"; "luxury"; "budget";
   "family"; "couple"; "business"; "mountain"; "hill"; "sea"].

(** [hotel.amenities && hotel.amenities.some(a => a.toLowerCase().includes(keyword))] *)
Definition amenities_some (ams : option (list string)) (keyword : string) : bool :=
  match ams with
  | Some l => existsb (fun a => includes (toLowerCase a) keyword) l
  | None => false
  end.

(** The body of [keywords.forEach(keyword => ...)], as a function of the
    running [score]. *)
Definition keyword_step (queryLower descLower titleLower : string)
    (ams : option (list string)) (score : Z) (keyword : string) : Z :=
  if includes queryLower keyword then
    let score :=
      if includes descLower keyword || includes titleLower keyword
      then score + 20 else score in
    let score :=
      if amenities_some ams keyword then score + 25 else score in
    score
  else score.

(** The whole [forEach] loop, started from [score]. *)
Definition keyword_loop (queryLower : string) (hotel : Listing) (score : Z) : Z :=
  let descLower := toLowerCase (or_empty (description hotel)) in
  let titleLower := toLowerCase (or_empty (title hotel)) in
  fold_left (keyword_step queryLower descLower titleLower (amenities hotel))
            keywords score.

(** [locationLower.split(',')[0].toLowerCase()] *)
Definition location_head (hotel : Listing) : string :=
  let locationLower := toLowerCase (or_empty (location hotel)) in
  toLowerCase (split_head "," locationLower).

Definition location_bonus (queryLower : string) (hotel : Listing) (score : Z) : Z :=
  if includes queryLower (location_head hotel) then score + 30 else score.

Definition price_bonus (queryLower : string) (hotel : Listing) (score : Z) : Z :=
  let score :=
    if includes queryLower "budget" && Qltb (price hotel) 3000
    then score + 15 else score in
  let score :=
    if includes queryLower "luxury" && Qltb 4000 (price hotel)
    then score + 15 else score in
  let score :=
    if includes queryLower "mid" && Qleb 2500 (price hotel)
       && Qleb (price hotel) 4500
    then score + 15 else score in
  score.

(** The score before [Math.min(score, 100)]. *)
Definition raw_score (queryLower : string) (hotel : Listing) : Z :=
  let score := 0 in
  let score := keyword_loop queryLower hotel score in
  let score := location_bonus queryLower hotel score in
  let score := price_bonus queryLower hotel score in
  score.

(** The callback of [hotels.map]: [{ ...hotel, matchScore: Math.min(score, 100) }]. *)
Definition score_hotel (queryLower : string) (hotel : Hotel) : Hotel :=
  mkHotel (doc hotel) (Some (Z.min (raw_score queryLower (doc hotel)) 100)).

(** ** Numbers read from the request *)

(** A JavaScript number, as far as the handler meets one: [NaN], an
    infinity, or a double whose value is the integer [z]. *)
Inductive JSNum :=
| NaN
| Num (z : Z)
| Infinity (negative : bool).

(** The value of [c] as a digit of the given radix, if it is one. *)
Definition digit_value (radix : Z) (c : ascii) : option Z :=
  let n := Z.of_N (N_of_ascii c) in
  let v :=
    if (48 <=? n) && (n <=? 57) then Some (n - 48)
    else if (97 <=? n) && (n <=? 122) then Some (n - 87)
    else if (65 <=? n) && (n <=? 90) then Some (n - 55)
    else None in
  match v with
  | Some d => if d <? radix then Some d else None
  | None => None
  end.

(** Reads the longest prefix of [s] made of digits; [acc] is [NaN] until a
    digit has been read. *)
Fixpoint parse_digits (radix : Z) (s : string) (acc : JSNum) : JSNum :=
  match s with
  | EmptyString => acc
  | String c s' =>
      match digit_value radix c with
      | Some d =>
          parse_digits radix s'
            (Num match acc with
                 | Num a => a * radix + d
                 | _ => d
                 end)
      | None => acc
      end
  end.

(** The integer that [parseInt(s)], with no radix argument, reads: leading
    white space, an optional sign, an optional [0x] prefix, then digits up
    to the first other character. *)
Definition parse_integer (s : string) : JSNum :=
  let s := trimStart s in
  let '(sign, s) :=
    match s with
    | String "-" r => (-1, r)
    | String "+" r => (1, r)
    | _ => (1, s)
    end in
  let '(radix, s) :=
    match s with
    | String "0" (String x r) =>
        if Ascii.eqb x "x" || Ascii.eqb x "X" then (16, r) else (10, s)
    | _ => (10, s)
    end in
  match parse_digits radix s NaN with
  | Num z => Num (sign * z)
  | r => r
  end.

(** The Number value of an integer: the integer itself up to 2^53 in
    magnitude, beyond that the nearest double (53 significant bits, a tie
    going to the even one), and an infinity from 2^1024 on. *)
Definition to_double (z : Z) : JSNum :=
  let a := Z.abs z in
  if a <=? 2 ^ 53 then Num z
  else
    let e := Z.log2 a - 52 in
    let q := a / 2 ^ e in
    let r := a mod 2 ^ e in
    let half := 2 ^ (e - 1) in
    let q := if (half <? r) || ((r =? half) && Z.odd q) then q + 1 else q in
    let v := q * 2 ^ e in
    if 2 ^ 1024 <=? v then Infinity (z <? 0) else Num (Z.sgn z * v).

(** [parseInt(s)]: the integer read, as a Number. *)
Definition parseInt (s : string) : JSNum :=
  match parse_integer s with
  | Num z => to_double z
  | r => r
  end.

(** ** The storage collaborator *)

(** The [filter] object handed to [Listing.find]. *)
Record Filter := mkFilter {
  flt_location : option string;   (* { $regex: location, $options: 'i' } *)
  flt_price : option JSNum        (* { $lte: parseInt(maxPrice) } *)
}.

Definition build_filter (location maxPrice : option string) : Filter :=
  let filter := mkFilter None None in
  let filter :=
    if truthy location
    then mkFilter (Some (or_empty location)) (flt_price filter)
    else filter in
  let filter :=
    if truthy maxPrice
    then mkFilter (flt_location filter) (Some (parseInt (or_empty maxPrice)))
    else filter in
  filter.

(** What the handler does with a request: a 200 answer with a body, or the
    500 answer of its [catch] block. *)
Record Body := mkBody {
  success : bool;
  count : nat;
  hotels : list Hotel
}.

Inductive Response :=
| Ok200 (body : Body)
| Error500.

Section Search.

(** The regular-expression engine of the store: [regex_i pattern subject]
    is the outcome of [{ $regex: pattern, $options: 'i' }] on [subject]. *)
Variable regex_i : string -> string -> bool.

Definition location_ok (flt : Filter) (l : Listing) : bool :=
  match flt_location flt with
  | None => true
  | Some pattern =>
      match location l with
      | Some subject => regex_i pattern subject
      | None => false
      end
  end.

Definition price_ok (flt : Filter) (l : Listing) : bool :=
  match flt_price flt with
  | None => true
  | Some (Num n) => Qleb (price l) (inject_Z n)
  | Some NaN => false
  | Some (Infinity negative) => negb negative
  end.

(** A document satisfies every condition of the filter. *)
Definition matches (flt : Filter) (l : Listing) : bool :=
  location_ok flt l && price_ok flt l.

(** [await Listing.find(filter).lean()]: the documents that satisfy the
    filter, in collection order.  A [NaN] bound cannot be cast to the
    [Number] path [price]: the query is rejected and the handler's [catch]
    answers. *)
Definition find (flt : Filter) (db : list Listing) : option (list Hotel) :=
  match flt_price flt with
  | Some NaN => None
  | _ => Some (map lean (filter (matches flt) db))
  end.

(** ** [Array.prototype.sort] *)

(** The comparator result as the sort uses it: [NaN] counts as 0, and only
    the sign of the result matters. *)
Definition sort_compare {A} (cmp : A -> A -> JSNum) (x y : A) : Z :=
  match cmp x y with
  | Num v => v
  | NaN => 0
  | Infinity negative => if negative then -1 else 1
  end.

Fixpoint sort_insert {A} (cmp : A -> A -> JSNum) (x : A) (l : list A) : list A :=
  match l with
  | [] => [x]
  | y :: l' =>
      if sort_compare cmp x y <=? 0 then x :: l
      else y :: sort_insert cmp x l'
  end.

(** [arr.sort(cmp)] as ECMAScript 2019 defines it: the elements reordered
    so that they ascend for [cmp], elements that compare equal keeping
    their order.  Insertion sort is one such algorithm. *)
Definition Array_sort {A} (cmp : A -> A -> JSNum) (l : list A) : list A :=
  fold_right (sort_insert cmp) [] l.

(** [(a, b) => b.matchScore - a.matchScore] *)
Definition by_matchScore (a b : Hotel) : JSNum :=
  match matchScore b, matchScore a with
  | Some sb, Some sa => Num (sb - sa)
  | _, _ => NaN
  end.

(** ** The handler *)

(** The block [if (query && hotels.length > 0) { ... }]. *)
Definition rank (query : option string) (hotels : list Hotel) : list Hotel :=
  if truthy query && (0 <? List.length hotels)%nat then
    let queryLower := toLowerCase (or_empty query) in
    let hotels := map (score_hotel queryLower) hotels in
    Array_sort by_matchScore hotels
  else hotels.

(** The callback of the amenity [filter]. *)
Definition has_amenity (amenityLower : string) (hotel : Hotel) : bool :=
  let desc := toLowerCase (or_empty (description (doc hotel))) in
  let amenities :=
    match amenities (doc hotel) with
    | Some l => l
    | None => []
    end in
  includes desc amenityLower
  || existsb (fun a => includes (toLowerCase a) amenityLower) amenities.

(** The block [if (amenity) { ... }]. *)
Definition amenity_filter (amenity : option string) (hotels : list Hotel) : list Hotel :=
  if truthy amenity then
    let amenityLower := toLowerCase (or_empty amenity) in
    filter (has_amenity amenityLower) hotels
  else hotels.

(** [hotels.slice(0, 20)] *)
Definition slice20 (hotels : list Hotel) : list Hotel := firstn 20 hotels.

(** The working set: what [Listing.find] returns for the request. *)
Definition working_set (db : list Listing) (location maxPrice : option string)
  : option (list Hotel) :=
  find (build_filter location maxPrice) db.

(** [router.get("/hotels/search", ...)] on the collection [db]. *)
Definition search (db : list Listing)
    (query location maxPrice amenity : option string) : Response :=
  match working_set db location maxPrice with
  | None => Error500
  | Some hotels =>
      let hotels := rank query hotels in
      let hotels := amenity_filter amenity hotels in
      let hotels := slice20 hotels in
      Ok200 (mkBody true (List.length hotels) hotels)
  end.

End Search.

(** ** The handler over a store of objects

    JavaScript arrays and objects are references into a heap; [map],
    [filter] and [slice] allocate, [sort] writes the array it is called on.
    This second model keeps the heap explicit, to state what the handler
    does to the objects it was given.  It is related to [rank],
    [amenity_filter] and [slice20] further down. *)

Module Store.

Definition ref := nat.

Inductive cell :=
| Obj (h : Hotel)
| Arr (elems : list ref).

Definition heap := list cell.

(** State and failure: a computation reads and extends the heap, or gets
    stuck on a reference that does not hold what it expects. *)
Definition M (A : Type) : Type := heap -> option (A * heap).

Definition ret {A} (a : A) : M A := fun s => Some (a, s).

Definition bind {A B} (m : M A) (k : A -> M B) : M B :=
  fun s =>
    match m s with
    | Some (a, s') => k a s'
    | None => None
    end.

Notation "x <- m ;; k" := (bind m (fun x => k))
  (at level 61, m at next level, right associativity).

Definition alloc (c : cell) : M ref :=
  fun s => Some (List.length s, (s ++ [c])%list).

Definition get_obj (r : ref) : M Hotel :=
  fun s =>
    match nth_error s r with
    | Some (Obj h) => Some (h, s)
    | _ => None
    end.

Definition get_arr (r : ref) : M (list ref) :=
  fun s =>
    match nth_error s r with
    | Some (Arr elems) => Some (elems, s)
    | _ => None
    end.

(** The cell at index [r] replaced; a heap too short is left as it is. *)
Fixpoint update (r : ref) (c : cell) (s : heap) : heap :=
  match s, r with
  | [], _ => []
  | _ :: s', O => c :: s'
  | c0 :: s', S r' => c0 :: update r' c s'
  end.

Definition set_arr (r : ref) (elems : list ref) : M unit :=
  fun s =>
    match nth_error s r with
    | Some (Arr _) => Some (tt, update r (Arr elems) s)
    | _ => None
    end.

Fixpoint mapM {A B} (f : A -> M B) (l : list A) : M (list B) :=
  match l with
  | [] => ret []
  | x :: l' => y <- f x ;; ys <- mapM f l' ;; ret (y :: ys)
  end.

(** [hotels.map(hotel => { ...; return { ...hotel, matchScore: ... } })]:
    one new object per element and a new array. *)
Definition map_score (queryLower : string) (arr : ref) : M ref :=
  elems <- get_arr arr ;;
  news <- mapM (fun r => hotel <- get_obj r ;;
                         alloc (Obj (score_hotel queryLower hotel))) elems ;;
  alloc (Arr news).

(** The comparator applied to two references: [x.matchScore] of anything
    that is not a scored object is [undefined], and the difference [NaN]. *)
Definition cmp_ref (s : heap) (a b : ref) : JSNum :=
  match nth_error s a, nth_error s b with
  | Some (Obj ha), Some (Obj hb) => by_matchScore ha hb
  | _, _ => NaN
  end.

(** [hotels.sort(cmp)]: the array [arr] itself is rewritten. *)
Definition sort_in_place (arr : ref) : M unit :=
  elems <- get_arr arr ;;
  fun s => set_arr arr (Array_sort (cmp_ref s) elems) s.

Definition rank (query : option string) (arr : ref) : M ref :=
  elems <- get_arr arr ;;
  if truthy query && (0 <? List.length elems)%nat then
    let queryLower := toLowerCase (or_empty query) in
    arr' <- map_score queryLower arr ;;
    _ <- sort_in_place arr' ;;
    ret arr'
  else ret arr.

(** [hotels.filter(hotel => ...)]: a new array of the references kept. *)
Definition amenity_filter (amenity : option string) (arr : ref) : M ref :=
  if truthy amenity then
    let amenityLower := toLowerCase (or_empty amenity) in
    elems <- get_arr arr ;;
    keep <- mapM (fun r => hotel <- get_obj r ;;
                           ret (has_amenity amenityLower hotel)) elems ;;
    alloc (Arr (map fst (filter snd (combine elems keep))))
  else ret arr.

(** [hotels.slice(0, 20)]: a new array. *)
Definition slice20 (arr : ref) : M ref :=
  elems <- get_arr arr ;;
  alloc (Arr (firstn 20 elems)).

(** The handler from the line after [Listing.find] to [res.json]: [arr] is
    the array the store returned. *)
Definition pipeline (query amenity : option string) (arr : ref) : M ref :=
  arr <- rank query arr ;;
  arr <- amenity_filter amenity arr ;;
  slice20 arr.

(** What [res.json] serialises: the objects an array refers to. *)
Definition view_refs (s : heap) (elems : list ref) : option (list Hotel) :=
  fold_right
    (fun r acc =>
       match nth_error s r, acc with
       | Some (Obj h), Some hs => Some (h :: hs)
       | _, _ => None
       end)
    (Some []) elems.

Definition view (s : heap) (arr : ref) : option (list Hotel) :=
  match nth_error s arr with
  | Some (Arr elems) => view_refs s elems
  | _ => None
  end.

(** The array [Listing.find(...).lean()] hands over: fresh objects, one per
    document, and the array that holds them. *)
Definition load (hs : list Hotel) : M ref :=
  refs <- mapM (fun h => alloc (Obj h)) hs ;;
  alloc (Arr refs).

End Store.

(** The pipeline of [search] after the store has answered, on values. *)
Definition pipeline (query amenity : option string) (hotels : list Hotel) : list Hotel :=
  slice20 (amenity_filter amenity (rank query hotels)).

(** ** The specification's side

    Definitions that follow the words of the specification, to be compared
    with the definitions above, which follow the code. *)

Definition Zsum (l : list Z) : Z := fold_right Z.add 0 l.

(** Section 4.1, step 3b, first item: what a keyword earns through the
    record's title or description. *)
Definition text_points (query : string) (hotel : Listing) (keyword : string) : Z :=
  if includes (toLowerCase query) (toLowerCase keyword)
     && (includes (toLowerCase (or_empty (title hotel))) (toLowerCase keyword)
         || includes (toLowerCase (or_empty (description hotel))) (toLowerCase keyword))
  then 20 else 0.

(** "[keyword] appears (substring, case-insensitive) in some element of
    [amenities]". *)
Definition InAmenities (keyword : string) (hotel : Listing) : Prop :=
  exists l a, amenities hotel = Some l /\ In a l /\ CISubstring keyword a.

(** Section 4.1, step 3b, second item: what a keyword earns through the
    record's amenities. *)
Definition amenity_points (query : string) (hotel : Listing) (keyword : string) : Z :=
  if includes (toLowerCase query) (toLowerCase keyword)
     && amenities_some (amenities hotel) (toLowerCase keyword)
  then 25 else 0.

(** Section 4.1, steps 3d to 3f: a price rule adds 15 points when its
    condition holds. *)
Definition flag_points (b : bool) : Z := if b then 15 else 0.

(** "The record's [matchScore] is [s]". *)
Definition score_is (s : Z) (h : Hotel) : bool :=
  match matchScore h with
  | Some v => v =? s
  | None => false
  end.

(** The score of a scored record (0 stands for a missing one). *)
Definition score_of (h : Hotel) : Z :=
  match matchScore h with
  | Some v => v
  | None => 0
  end.

(** "[a] is ranked at least as high as [b]": both are scored and the score
    of [a] is not below that of [b]. *)
Definition ranked_above (a b : Hotel) : Prop :=
  exists sa sb, matchScore a = Some sa /\ matchScore b = Some sb /\ sb <= sa.

(** Section 4.1, step 3c as worded: the first comma-delimited segment,
    lower-cased and trimmed. *)
Definition trimmed_location_head (hotel : Listing) : string :=
  trim (toLowerCase (split_head "," (or_empty (location hotel)))).

(** The number a plain decimal literal [digits] or [digits.digits] denotes
    (what [Number(s)] is for such a string): [num / den] so far, [den]
    growing once the point has been read. *)
Fixpoint read_decimal (s : string) (seen_point : bool) (num : Z) (den : positive)
  : option Q :=
  match s with
  | EmptyString => Some (num # den)
  | String c s' =>
      if Ascii.eqb c "." then
        if seen_point then None else read_decimal s' true num den
      else
        match digit_value 10 c with
        | Some d =>
            read_decimal s' seen_point (num * 10 + d)
              (if seen_point then (den * 10)%positive else den)
        | None => None
        end
  end.

Definition decimal_value (s : string) : option Q :=
  match s with
  | EmptyString => None
  | _ => read_decimal s false 0 1
  end.

(** The decimal digits of a natural number, as a client writes them. *)
Definition decimal (n : N) : string :=
  DecimalString.NilZero.string_of_uint (N.to_uint n).

(** "The array [arr] of the heap [s] holds the references [elems], which
    refer to the objects [hs]". *)
Definition holds (s : Store.heap) (arr : Store.ref) (elems : list Store.ref)
    (hs : list Hotel) : Prop :=
  nth_error s arr = Some (Store.Arr elems) /\ Store.view_refs s elems = Some hs.

(** "Nothing that was in the heap [s] has been changed in [s']". *)
Definition unchanged (s s' : Store.heap) : Prop :=
  forall r c, nth_error s r = Some c -> nth_error s' r = Some c.

(** "The reference [r] was allocated after the heap [s] was taken". *)
Definition fresh (s : Store.heap) (r : Store.ref) : Prop :=
  (List.length s <= r)%nat.

(** ** Sample data *)

Module Sample.

(** A store regex engine restricted to patterns without metacharacters:
    case-insensitive containment. *)
Definition plain_regex (pattern subject : string) : bool :=
  includes (toLowerCase subject) (toLowerCase pattern).

Definition beach_resort : Listing :=
  mkListing "64abc1" (Some "Beach Resort") (Some "Sea view rooms with a pool")
    None 3500 (Some "Calangute, Goa") (Some "India")
    (Some ["Pool"; "WiFi"; "Parking"]).

Definition hill_cottage : Listing :=
  mkListing "64abc2" (Some "Hill Cottage") None
    None 1800 (Some "Manali, Himachal Pradesh") (Some "India") None.

Definition city_hotel : Listing :=
  mkListing "64abc3" (Some "City Business Hotel") (Some "Gym and spa")
    None 5000 (Some "Mumbai") (Some "India") (Some ["Gym"; "Spa"; "AC"]).

(** A listing whose area is followed by a space before the comma. *)
Definition goa_villa : Listing :=
  mkListing "64abc4" (Some "Villa") (Some "Quiet villa")
    None 4200 (Some "Goa , India") (Some "India") (Some []).

(** A listing priced between two integers. *)
Definition fractional_price : Listing :=
  mkListing "64abc5" (Some "Hostel") None
    None (10001 # 4) (Some "Pune") (Some "India") None.

(** A listing priced at a double beyond 2^53. *)
Definition huge_price : Listing :=
  mkListing "64abc9" (Some "Palace") None
    None 9007199254740996 (Some "Udaipur") (Some "India") None.

Definition db : list Listing :=
  [beach_resort; hill_cottage; city_hotel; goa_villa].

(** 25 documents, to exercise the cap of 20. *)
Definition big_db : list Listing :=
  (flat_map (fun _ => db) (seq 0 6) ++ [beach_resort])%list.

End Sample.

(** ** The AI routes of [routes/ai.js]

    The routes that forward to the AI service and the two that write the
    amenities the service extracts.  [fetch], the service behind it and the
    store's own failures are outside the repository: they are parameters. *)

Module AI.

(** The body of a request to the AI service, [JSON.stringify({ ... })]:
    field names and values, a field whose value is [undefined] being left
    out of the text that is sent. *)
Record Call := mkCall {
  path : string;
  fields : list (string * option string)
}.

(** The parsed body of an answer of the service: the two fields the
    handlers read, [data.amenities] and [data.confidence], and the rest. *)
Record Json := mkJson {
  amenities_field : option (list string);
  confidence_field : option string;
  rest : string
}.

(** [await response.json()]: the data, or the error it throws. *)
Inductive Parsed :=
| Data (d : Json)
| Unparsable (message : string).

(** [await fetch(url, ...)]: the error it throws, or a response with its
    [ok] flag, status, text and parsed body. *)
Inductive Fetched :=
| Rejected (message : string)
| Answered (ok : bool) (status : N) (text : string) (json : Parsed).

(** What a handler sends back: [res.json(data)], or
    [res.status(code).json({ error, details })]. *)
Inductive Reply (D : Type) : Type :=
| Sent (data : D)
| Refused (status : N) (error : string) (details : option string).
Arguments Sent {D} data.
Arguments Refused {D} status error details.

(** The collection and the requests made to the AI service so far. *)
Record World := mkWorld {
  store : list Listing;
  calls : list Call
}.

(** The body of the successful answer of [/listings/:id/extract-amenities]. *)
Record Extracted := mkExtracted {
  e_success : bool;
  listing_id : string;
  e_amenities : list string;
  confidence : option string;
  e_count : nat;
  message : string
}.

(** One element of [results] in the bulk route. *)
Inductive Result :=
| Skipped (id : string) (title : option string) (reason : string)
| Succeeded (id : string) (title : option string) (amenities_count : nat)
            (amenities : list string)
| FailedOn (id : string) (title : option string) (error : string).

(** The two answers of the bulk route. *)
Inductive BulkReply :=
| NothingToDo (message : string) (processed success failed : nat)
| Processed (processed success failed : nat) (results : list Result).

(** The variables of the bulk loop. *)
Record Loop := mkLoop {
  results : list Result;
  success : nat;
  failed : nat;
  world : World
}.

(** [`Extracted ${n} amenities`], [`HTTP ${status}`]: a number in a
    template string. *)
Definition show (n : N) : string := decimal n.

(** What reading [.length] of [undefined] throws. *)
Definition no_length : string :=
  "Cannot read properties of undefined (reading 'length')".

Section Routes.

(** The AI service as [fetch] reaches it: its answer to a request, given
    the requests made before. *)
Variable service : list Call -> Call -> Fetched.

(** The store refusing an id ([findById] throws) or a document ([save]
    throws): the message of the error, if any. *)
Variable id_error : string -> option string.
Variable save_error : Listing -> option string.

(** The block every route repeats:
    [if (!response.ok) throw new Error(...); const data = await response.json();]
    with the message of the error thrown for a response that is not ok. *)
Definition fetched (not_ok : N -> string -> string) (r : Fetched) : string + Json :=
  match r with
  | Rejected m => inl m
  | Answered ok status text json =>
      if negb ok then inl (not_ok status text)
      else match json with
           | Data d => inr d
           | Unparsable m => inl m
           end
  end.

(** [`AI Service error: ${error}`] *)
Definition service_error (status : N) (text : string) : string :=
  "AI Service error: " ++ text.

(** [`HTTP ${response.status}`] *)
Definition http_error (status : N) (text : string) : string :=
  "HTTP " ++ show status.

Definition called (w : World) (call : Call) : World :=
  mkWorld (store w) (calls w ++ [call])%list.

(** From [fetch] to [res.json(data)], and the [catch] block. *)
Definition forward (failure : string) (call : Call) (w : World)
  : Reply Json * World :=
  match fetched service_error (service (calls w) call) with
  | inr data => (Sent data, called w call)
  | inl m => (Refused 500 failure (Some m), called w call)
  end.

(** [router.post("/travel/plan", ...)] *)
Definition travel_plan (query source destination preferences : option string)
    (w : World) : Reply Json * World :=
  if negb (truthy query) then (Refused 400 "Query is required" None, w)
  else forward "Failed to generate travel itinerary"
         (mkCall "/agent/travel-planner"
            [("query", query); ("source", source);
             ("destination", destination); ("preferences", preferences)]) w.

(** [router.post("/travel/solo/start", ...)] *)
Definition solo_start (query thread_id : option string) (w : World)
  : Reply Json * World :=
  if negb (truthy query) then (Refused 400 "Query is required" None, w)
  else forward "Failed to start solo trip planning"
         (mkCall "/agent/solo-trip/start"
            [("query", query); ("thread_id", thread_id)]) w.

(** [router.post("/travel/solo/resume", ...)] *)
Definition solo_resume (thread_id user_responses : option string) (w : World)
  : Reply Json * World :=
  if negb (truthy thread_id) then (Refused 400 "Thread ID is required" None, w)
  else forward "Failed to resume solo trip planning"
         (mkCall "/agent/solo-trip/resume"
            [("thread_id", thread_id); ("user_responses", user_responses)]) w.

(** [x || "default"] *)
Definition or_default (x : option string) : option string :=
  if truthy x then x else Some "default".

(** [router.post("/chat/smart", ...)] *)
Definition smart_chat (query thread_id user_id force_tool : option string)
    (w : World) : Reply Json * World :=
  if negb (truthy query) then (Refused 400 "Query is required" None, w)
  else forward "Failed to process chat request"
         (mkCall "/agent/smart-chat"
            [("query", query); ("thread_id", or_default thread_id);
             ("user_id", or_default user_id); ("force_tool", force_tool)]) w.

(** [router.post("/test-extract-amenities", ...)] *)
Definition test_extract (description : option string) (w : World)
  : Reply Json * World :=
  if negb (truthy description) then (Refused 400 "Description is required" None, w)
  else forward "Failed to extract amenities"
         (mkCall "/tools/extract-amenities" [("description", description)]) w.

(** [Listing.findById(id)]: the document of that id, if there is one. *)
Definition findById (id : string) (db : list Listing) : option Listing :=
  List.find (fun d => String.eqb (_id d) id) db.

(** [listing.amenities = amenities] *)
Definition set_amenities (l : Listing) (ams : option (list string)) : Listing :=
  mkListing (_id l) (title l) (description l) (image l) (price l)
            (location l) (country l) ams.

(** The default of the [image] path ([models/listing.js], lines 165-168),
    which the listing has in memory when none was stored. *)
Definition default_image : string :=
  "https://images.unsplash.com/photo-1625505826533-5c80aca7d157?ixlib=rb-4.0.3&ixid=M3wxMjA3fDB8MHxzZWFyY2h8MTJ8fGdvYXxlbnwwfHwwfHx8MA%3D%3D&auto=format&fit=crop&w=800&q=60".

(** What [save] leaves of the stored document [d] when the listing [l],
    loaded from it, is saved: the amenities assigned to [l], and the default
    image if [d] had none.  (The version key [__v], which [save] advances
    as well, is not among the fields of [Listing].) *)
Definition stored (l d : Listing) : Listing :=
  mkListing (_id d) (title d) (description d)
            (match image d with
             | Some i => Some i
             | None => Some default_image
             end)
            (price d) (location d) (country d) (amenities l).

(** [await listing.save()] after that assignment, on the document of the
    same id. *)
Definition save (l : Listing) (db : list Listing) : list Listing :=
  map (fun d => if String.eqb (_id d) (_id l) then stored l d else d) db.

Definition saved (l : Listing) (w : World) : World :=
  mkWorld (save l (store w)) (calls w).

Definition extract_call (listing : Listing) : Call :=
  mkCall "/tools/extract-amenities" [("description", description listing)].

(** [router.post("/listings/:id/extract-amenities", ...)] *)
Definition extract_amenities (id : string) (w : World)
  : Reply Extracted * World :=
  let failure := "Failed to extract amenities" in
  match id_error id with
  | Some m => (Refused 500 failure (Some m), w)
  | None =>
      match findById id (store w) with
      | None => (Refused 404 "Listing not found" None, w)
      | Some listing =>
          if negb (truthy (description listing)) then
            (Refused 400 "Listing has no description to extract from" None, w)
          else
            let call := extract_call listing in
            let response := service (calls w) call in
            let w := called w call in
            match fetched service_error response with
            | inl m => (Refused 500 failure (Some m), w)
            | inr data =>
                let amenities := amenities_field data in
                let listing := set_amenities listing amenities in
                match save_error listing with
                | Some m => (Refused 500 failure (Some m), w)
                | None =>
                    let w := saved listing w in
                    match amenities with
                    | None => (Refused 500 failure (Some no_length), w)
                    | Some ams =>
                        (Sent (mkExtracted true id ams (confidence_field data)
                                 (List.length ams)
                                 ("Extracted "
                                  ++ show (N.of_nat (List.length ams))
                                  ++ " amenities")), w)
                    end
                end
            end
      end
  end.

(** [{ $or: [{ amenities: { $exists: false } }, { amenities: { $size: 0 } }] }] *)
Definition lacks_amenities (d : Listing) : bool :=
  match amenities d with
  | None => true
  | Some [] => true
  | Some (_ :: _) => false
  end.

(** The body of [for (const listing of listings) { try { ... } catch { ... } }]. *)
Definition bulk_step (st : Loop) (listing : Listing) : Loop :=
  if negb (truthy (description listing)) then
    mkLoop (results st ++ [Skipped (_id listing) (title listing) "No description"])%list
           (success st) (failed st) (world st)
  else
    let call := extract_call listing in
    let response := service (calls (world st)) call in
    let w := called (world st) call in
    let failure m w :=
      mkLoop (results st ++ [FailedOn (_id listing) (title listing) m])%list
             (success st) (S (failed st)) w in
    match fetched http_error response with
    | inl m => failure m w
    | inr data =>
        let listing := set_amenities listing (amenities_field data) in
        match save_error listing with
        | Some m => failure m w
        | None =>
            let w := saved listing w in
            match amenities_field data with
            | None => failure no_length w
            | Some ams =>
                mkLoop (results st
                        ++ [Succeeded (_id listing) (title listing)
                              (List.length ams) ams])%list
                       (S (success st)) (failed st) w
            end
        end
    end.

(** [router.post("/listings/bulk-extract-amenities", ...)] *)
Definition bulk_extract (w : World) : BulkReply * World :=
  let listings := filter lacks_amenities (store w) in
  if (List.length listings =? 0)%nat then
    (NothingToDo "All listings already have amenities" 0 0 0, w)
  else
    let st := fold_left bulk_step listings (mkLoop [] 0 0 w) in
    (Processed (List.length listings) (success st) (failed st) (results st),
     world st).

End Routes.

(** The listing a result is about, and its status. *)
Definition result_id (r : Result) : string :=
  match r with
  | Skipped id _ _ => id
  | Succeeded id _ _ _ => id
  | FailedOn id _ _ => id
  end.

Definition status (r : Result) : string :=
  match r with
  | Skipped _ _ _ => "skipped"
  | Succeeded _ _ _ _ => "success"
  | FailedOn _ _ _ => "failed"
  end.

End AI.

(** ** Reading the AI routes *)

(** What the amenity routes never change in a document: its id, title,
    description, price, location and country. *)
Definition kept_fields (d : Listing)
  : string * option string * option string * Q * option string * option string :=
  (_id d, title d, description d, price d, location d, country d).

(** "The listing has a description": [listing.description] is truthy. *)
Definition described (d : Listing) : bool := truthy (description d).

(** The number of results of a given status. *)
Definition count_status (s : string) (rs : list AI.Result) : nat :=
  List.length (filter (fun r => String.eqb (AI.status r) s) rs).

(** "The route answered as a forwarding route does": it leaves the
    collection alone; without its required field it answers 400 with
    [missing] and asks the service nothing; with it, it makes one request
    to [path] that carries the field, answers with the service's data when
    the service answered ok with data, and with 500 and [failure]
    otherwise. *)
Definition forwards (service : list AI.Call -> AI.Call -> AI.Fetched)
    (name : string) (required : option string)
    (missing failure path : string)
    (w : AI.World) (out : AI.Reply AI.Json * AI.World) : Prop :=
  AI.store (snd out) = AI.store w
  /\ (truthy required = false ->
      out = (AI.Refused 400 missing None, w))
  /\ (truthy required = true ->
      exists call,
        AI.path call = path
        /\ In (name, required) (AI.fields call)
        /\ AI.calls (snd out) = (AI.calls w ++ [call])%list
        /\ (forall d,
              fst out = AI.Sent d
              <-> exists st text,
                    service (AI.calls w) call
                    = AI.Answered true st text (AI.Data d))
        /\ (forall st e details,
              fst out = AI.Refused st e details -> st = 500%N /\ e = failure)).

(** ** Sample services *)

Module SampleAI.

(** The AI service out of reach. *)
Definition offline (history : list AI.Call) (call : AI.Call) : AI.Fetched :=
  AI.Rejected "fetch failed".

Definition tags : AI.Json :=
  AI.mkJson (Some ["Garden"; "WiFi"]) (Some "0.9") "".

(** A service that extracts the same two tags from every description. *)
Definition tagger (history : list AI.Call) (call : AI.Call) : AI.Fetched :=
  AI.Answered true 200 "" (AI.Data tags).

(** A service that answers its first request and is busy afterwards. *)
Definition busy_after_one (history : list AI.Call) (call : AI.Call) : AI.Fetched :=
  match history with
  | [] => AI.Answered true 200 "" (AI.Data tags)
  | _ => AI.Answered false 503 "busy" (AI.Unparsable "")
  end.

(** A store that accepts every id and every document. *)
Definition accept_id (id : string) : option string := None.
Definition accept_doc (d : Listing) : option string := None.

(** A second listing without amenities, with a description. *)
Definition lake_house : Listing :=
  mkListing "64abc8" (Some "Lake House") (Some "Garden by the lake, wifi")
    None 2600 (Some "Nainital, Uttarakhand") (Some "India") None.

Definition world : AI.World :=
  AI.mkWorld (Sample.db ++ [lake_house])%list [].

End SampleAI.

(** * Properties *)

(** ** Strings *)

Section StringFacts.

Lemma append_nil_r (s : string) : s ++ "" = s.
Proof. induction s as [|c s IH]; simpl; [reflexivity | now rewrite IH]. Qed.

Lemma append_assoc (s t u : string) : (s ++ t) ++ u = s ++ t ++ u.
Proof. induction s as [|c s IH]; simpl; [reflexivity | now rewrite IH]. Qed.

Lemma prefix_spec (p s : string) :
  String.prefix p s = true <-> exists r, s = p ++ r.
Proof.
  revert s; induction p as [|a p IH]; intros [|b s]; simpl.
  - split; [intros _; now exists "" | reflexivity].
  - split; [intros _; now exists (String b s) | reflexivity].
  - split; [discriminate | intros [r Hr]; discriminate].
  - destruct (ascii_dec a b) as [->|Hab].
    + rewrite IH. split; intros [r Hr]; exists r; congruence.
    + split; [discriminate | intros [r Hr]; congruence].
Qed.

Lemma includes_unfold (s sub : string) :
  includes s sub =
  if String.prefix sub s then true
  else match s with
       | EmptyString => false
       | String _ s' => includes s' sub
       end.
Proof. destruct s; reflexivity. Qed.

(** [includes] decides the substring relation. *)
Lemma includes_spec (s sub : string) :
  includes s sub = true <-> Substring sub s.
Proof.
  unfold Substring. split.
  - induction s as [|c s IH]; rewrite includes_unfold;
      destruct (String.prefix sub _) eqn:Hp.
    + intros _. apply prefix_spec in Hp as [r ->]. now exists "", r.
    + discriminate.
    + intros _. apply prefix_spec in Hp as [r ->]. now exists "", r.
    + intros H. destruct (IH H) as (l & r & ->). now exists (String c l), r.
  - intros (l & r & ->).
    induction l as [|c l IH]; rewrite includes_unfold.
    + simpl. replace (String.prefix sub (sub ++ r)) with true; [reflexivity|].
      symmetry. apply prefix_spec. now exists r.
    + destruct (String.prefix sub _); [reflexivity | exact IH].
Qed.

Lemma includes_false (s sub : string) :
  includes s sub = false <-> ~ Substring sub s.
Proof.
  rewrite <- includes_spec. destruct (includes s sub); split; congruence.
Qed.

Lemma Substring_refl (s : string) : Substring s s.
Proof. exists "", "". simpl. now rewrite append_nil_r. Qed.

Lemma Substring_trans (a b c : string) :
  Substring a b -> Substring b c -> Substring a c.
Proof.
  intros (l1 & r1 & ->) (l2 & r2 & ->).
  exists (l2 ++ l1), (r1 ++ r2). now rewrite !append_assoc.
Qed.

Lemma lower_ascii_idem (c : ascii) : lower_ascii (lower_ascii c) = lower_ascii c.
Proof.
  destruct c as [[] [] [] [] [] [] [] []]; reflexivity.
Qed.

Lemma lower_ascii_comma (c : ascii) :
  Ascii.eqb (lower_ascii c) "," = Ascii.eqb c ",".
Proof.
  destruct c as [[] [] [] [] [] [] [] []]; reflexivity.
Qed.

Lemma toLowerCase_idem (s : string) : toLowerCase (toLowerCase s) = toLowerCase s.
Proof.
  induction s as [|c s IH]; simpl; [reflexivity|].
  now rewrite lower_ascii_idem, IH.
Qed.

Lemma toLowerCase_app (s t : string) :
  toLowerCase (s ++ t) = toLowerCase s ++ toLowerCase t.
Proof. induction s as [|c s IH]; simpl; [reflexivity | now rewrite IH]. Qed.

(** Lower-casing keeps occurrences: containment implies case-insensitive
    containment. *)
Lemma Substring_CISubstring (sub s : string) :
  Substring sub s -> CISubstring sub s.
Proof.
  intros (l & r & ->). exists (toLowerCase l), (toLowerCase r).
  now rewrite !toLowerCase_app.
Qed.

(** Lower-casing neither adds nor removes a comma, so it commutes with
    taking the first segment. *)
Lemma split_head_lower (s : string) :
  split_head "," (toLowerCase s) = toLowerCase (split_head "," s).
Proof.
  induction s as [|c s IH]; simpl; [reflexivity|].
  rewrite lower_ascii_comma.
  destruct (Ascii.eqb c ","); simpl; [reflexivity | now rewrite IH].
Qed.

Lemma split_head_append (head rest : string) :
  split_head "," head = head ->
  split_head "," (head ++ String "," rest) = head.
Proof.
  induction head as [|c head IH]; simpl.
  - reflexivity.
  - destruct (Ascii.eqb c ","); [discriminate|].
    intros H. injection H as H. now rewrite IH.
Qed.

(** Every keyword of the vocabulary is written in lower case. *)
Lemma keywords_lower (k : string) : In k keywords -> toLowerCase k = k.
Proof.
  unfold keywords. simpl.
  intros H; repeat (destruct H as [<-|H]; [reflexivity|]); contradiction.
Qed.

End StringFacts.

(** ** The keyword loop *)

Section KeywordLoop.

Variables (queryLower descLower titleLower : string).
Variable ams : option (list string).

Let step := keyword_step queryLower descLower titleLower ams.

Lemma keyword_step_add (score : Z) (k : string) :
  step score k = score + step 0 k.
Proof.
  unfold step, keyword_step.
  destruct (includes queryLower k); [|lia].
  destruct (includes descLower k || includes titleLower k);
    destruct (amenities_some ams k); lia.
Qed.

Lemma keyword_fold_sum (ks : list string) (score : Z) :
  fold_left step ks score = score + Zsum (map (step 0) ks).
Proof.
  revert score; induction ks as [|k ks IH]; intros score; simpl.
  - lia.
  - rewrite IH, keyword_step_add. lia.
Qed.

End KeywordLoop.

Lemma Zsum_map_ext (f g : string -> Z) (l : list string) :
  (forall k, In k l -> f k = g k) -> Zsum (map f l) = Zsum (map g l).
Proof.
  induction l as [|k l IH]; simpl; intros H; [reflexivity|].
  rewrite (H k), IH by auto. reflexivity.
Qed.

Lemma keyword_step_points (query : string) (hotel : Listing) (k : string) :
  toLowerCase k = k ->
  keyword_step (toLowerCase query)
    (toLowerCase (or_empty (description hotel)))
    (toLowerCase (or_empty (title hotel))) (amenities hotel) 0 k
  = text_points query hotel k + amenity_points query hotel k.
Proof.
  intros Hk. unfold keyword_step, text_points, amenity_points. rewrite Hk.
  destruct (includes (toLowerCase query) k); simpl; [|reflexivity].
  rewrite (orb_comm (includes (toLowerCase (or_empty (title hotel))) k)).
  destruct (includes _ k || includes _ k);
    destruct (amenities_some (amenities hotel) k); reflexivity.
Qed.

Lemma keyword_loop_sum (query : string) (hotel : Listing) (score : Z) :
  keyword_loop (toLowerCase query) hotel score
  = score + Zsum (map (fun k => text_points query hotel k
                                + amenity_points query hotel k) keywords).
Proof.
  unfold keyword_loop. rewrite keyword_fold_sum. f_equal.
  apply Zsum_map_ext. intros k Hk.
  apply keyword_step_points, keywords_lower, Hk.
Qed.

Lemma amenities_some_spec (hotel : Listing) (k : string) :
  amenities_some (amenities hotel) (toLowerCase k) = true <-> InAmenities k hotel.
Proof.
  unfold amenities_some, InAmenities, CISubstring.
  destruct (amenities hotel) as [l|].
  - rewrite existsb_exists. split.
    + intros (a & Ha & Hinc). apply includes_spec in Hinc. now exists l, a.
    + intros (l' & a & Hl & Ha & Hs). injection Hl as <-.
      exists a. split; [assumption | now apply includes_spec].
  - split; [discriminate | intros (l & a & Hl & _); discriminate].
Qed.

Lemma text_points_cases (query : string) (hotel : Listing) (k : string) :
  let P := CISubstring k query
           /\ (CISubstring k (or_empty (title hotel))
               \/ CISubstring k (or_empty (description hotel))) in
  (P -> text_points query hotel k = 20) /\ (~ P -> text_points query hotel k = 0).
Proof.
  unfold text_points, CISubstring.
  destruct (includes (toLowerCase query) _) eqn:Hq;
    destruct (includes (toLowerCase (or_empty (title hotel))) _) eqn:Ht;
    destruct (includes (toLowerCase (or_empty (description hotel))) _) eqn:Hd;
    simpl;
    repeat match goal with
           | H : includes _ _ = true |- _ => apply includes_spec in H
           | H : includes _ _ = false |- _ => apply includes_false in H
           end;
    split; intros HP; try reflexivity; tauto.
Qed.

Lemma amenity_points_cases (query : string) (hotel : Listing) (k : string) :
  let P := CISubstring k query /\ InAmenities k hotel in
  (P -> amenity_points query hotel k = 25) /\ (~ P -> amenity_points query hotel k = 0).
Proof.
  unfold amenity_points.
  pose proof (amenities_some_spec hotel k) as Ha.
  destruct (includes (toLowerCase query) _) eqn:Hq;
    destruct (amenities_some _ _); simpl;
    [apply includes_spec in Hq | apply includes_spec in Hq
     | apply includes_false in Hq | apply includes_false in Hq];
    unfold CISubstring; split; intros HP; try reflexivity;
    try (exfalso; apply HP; split; [assumption | now apply Ha]);
    try tauto.
  destruct HP as [_ HP]. apply Ha in HP. discriminate.
Qed.

Lemma text_points_nonneg (query : string) (hotel : Listing) (k : string) :
  0 <= text_points query hotel k.
Proof. unfold text_points. destruct (_ && _); lia. Qed.

Lemma amenity_points_nonneg (query : string) (hotel : Listing) (k : string) :
  0 <= amenity_points query hotel k.
Proof. unfold amenity_points. destruct (_ && _); lia. Qed.

(** C1. For every record and every keyword of the vocabulary, the keyword
    loop adds 20 points exactly when the keyword is a case-insensitive
    substring of the query and of the record's title or description, and 25
    more exactly when it is a case-insensitive substring of the query and of
    some element of the amenities; a keyword that does not occur in the
    lower-cased query adds nothing.  The loop adds the sum of these
    contributions over the vocabulary to the running score. *)
Theorem keyword_scoring (query : string) (hotel : Listing) (score : Z) :
  keyword_loop (toLowerCase query) hotel score
  = score + Zsum (map (fun k => text_points query hotel k
                                + amenity_points query hotel k) keywords)
  /\ forall k, In k keywords ->
       let in_query := CISubstring k query in
       let in_text := CISubstring k (or_empty (title hotel))
                      \/ CISubstring k (or_empty (description hotel)) in
       (in_query /\ in_text -> text_points query hotel k = 20)
       /\ (~ (in_query /\ in_text) -> text_points query hotel k = 0)
       /\ (in_query /\ InAmenities k hotel -> amenity_points query hotel k = 25)
       /\ (~ (in_query /\ InAmenities k hotel) -> amenity_points query hotel k = 0)
       /\ (~ Substring k (toLowerCase query) ->
           text_points query hotel k + amenity_points query hotel k = 0).
Proof.
  split; [apply keyword_loop_sum|].
  intros k Hk in_query in_text.
  destruct (text_points_cases query hotel k) as [Ht1 Ht0].
  destruct (amenity_points_cases query hotel k) as [Ha1 Ha0].
  repeat split; try assumption.
  intros Hn.
  assert (Hq : ~ CISubstring k query).
  { unfold CISubstring. now rewrite (keywords_lower k Hk). }
  rewrite Ht0, Ha0 by tauto. reflexivity.
Qed.

Lemma keyword_scoring_witness :
  let query := "Budget hotel with POOL" in
  keyword_loop (toLowerCase query) Sample.beach_resort 0 = 45
  /\ text_points query Sample.beach_resort "pool" = 20
  /\ amenity_points query Sample.beach_resort "pool" = 25
  /\ text_points query Sample.beach_resort "wifi"
     + amenity_points query Sample.beach_resort "wifi" = 0.
Proof.
  intros query.
  destruct (keyword_scoring query Sample.beach_resort 0) as [Hsum Hk].
  assert (Hpool : In "pool" keywords) by (unfold keywords; simpl; tauto).
  assert (Hwifi : In "wifi" keywords) by (unfold keywords; simpl; tauto).
  destruct (Hk "pool" Hpool) as (Htext & _ & Ham & _ & _).
  destruct (Hk "wifi" Hwifi) as (_ & _ & _ & _ & Hgate).
  split; [rewrite Hsum; reflexivity|].
  split; [|split].
  - apply Htext. split; [|right]; apply includes_spec; reflexivity.
  - apply Ham. split; [apply includes_spec; reflexivity|].
    exists ["Pool"; "WiFi"; "Parking"], "Pool".
    split; [reflexivity|]. split; [now left|]. apply includes_spec; reflexivity.
  - apply Hgate. apply includes_false. reflexivity.
Defined.

Lemma Zsum_nonneg (l : list Z) : Forall (fun z => 0 <= z) l -> 0 <= Zsum l.
Proof. induction 1; simpl; lia. Qed.

Lemma keyword_loop_lower_bound (queryLower : string) (hotel : Listing) (score : Z) :
  score <= keyword_loop queryLower hotel score.
Proof.
  unfold keyword_loop. rewrite keyword_fold_sum.
  enough (0 <= Zsum (map (keyword_step queryLower
                            (toLowerCase (or_empty (description hotel)))
                            (toLowerCase (or_empty (title hotel)))
                            (amenities hotel) 0) keywords)) by lia.
  apply Zsum_nonneg, Forall_forall. intros z Hz.
  apply in_map_iff in Hz as (k & <- & _). unfold keyword_step.
  destruct (includes queryLower k); [|lia].
  destruct (_ || _); destruct (amenities_some _ _); lia.
Qed.

(** C10. Keyword activation is plain containment in the query, so a keyword
    that is part of another word is activated with it: for a record whose
    title or description contains "beach", a query containing "beach" earns
    20 points for the keyword "beach" and 20 for the keyword "ac", at least
    40 from the loop; and a query containing "search" activates the keyword
    "sea". *)
Theorem substring_activation (query : string) (hotel : Listing) :
  (CISubstring "beach" query ->
   CISubstring "beach" (or_empty (title hotel))
   \/ CISubstring "beach" (or_empty (description hotel)) ->
   text_points query hotel "beach" = 20
   /\ text_points query hotel "ac" = 20
   /\ 40 <= keyword_loop (toLowerCase query) hotel 0)
  /\ (CISubstring "search" query -> includes (toLowerCase query) "sea" = true).
Proof.
  assert (Hac : Substring "ac" "beach") by (now exists "be", "h").
  assert (Hsea : Substring "sea" "search") by (now exists "", "rch").
  split.
  - intros Hq Ht.
    assert (Hb : text_points query hotel "beach" = 20).
    { apply text_points_cases. split; assumption. }
    assert (Ha : text_points query hotel "ac" = 20).
    { apply text_points_cases. unfold CISubstring in *. simpl toLowerCase at 1 3 5.
      split; [|destruct Ht; [left | right]];
        eapply Substring_trans; try exact Hac; assumption. }
    repeat split; try assumption.
    rewrite keyword_loop_sum. unfold keywords. cbn [map Zsum fold_right].
    rewrite Hb, Ha.
    pose proof (text_points_nonneg query hotel) as Hn.
    pose proof (amenity_points_nonneg query hotel) as Hm.
    repeat match goal with
           | |- context [text_points query hotel ?k] =>
               lazymatch goal with
               | _ : 0 <= text_points query hotel k |- _ => fail
               | _ => pose proof (Hn k)
               end
           | |- context [amenity_points query hotel ?k] =>
               lazymatch goal with
               | _ : 0 <= amenity_points query hotel k |- _ => fail
               | _ => pose proof (Hm k)
               end
           end.
    lia.
  - intros Hq. apply includes_spec.
    eapply Substring_trans; [exact Hsea | exact Hq].
Qed.

Lemma substring_activation_witness :
  let query := "Search a beach stay" in
  text_points query Sample.beach_resort "beach" = 20
  /\ text_points query Sample.beach_resort "ac" = 20
  /\ 40 <= keyword_loop (toLowerCase query) Sample.beach_resort 0
  /\ includes (toLowerCase query) "sea" = true.
Proof.
  intros query.
  destruct (substring_activation query Sample.beach_resort) as [Hbeach Hsea].
  assert (Hq : CISubstring "beach" query) by (apply includes_spec; reflexivity).
  assert (Ht : CISubstring "beach" (or_empty (title Sample.beach_resort)))
    by (apply includes_spec; reflexivity).
  destruct (Hbeach Hq (or_introl Ht)) as (H1 & H2 & H3).
  split; [exact H1|]. split; [exact H2|]. split; [exact H3|].
  apply Hsea, includes_spec. reflexivity.
Defined.

(** ** The location bonus *)

Lemma location_head_eq (hotel : Listing) :
  location_head hotel = toLowerCase (split_head "," (or_empty (location hotel))).
Proof.
  unfold location_head. now rewrite split_head_lower, toLowerCase_idem.
Qed.

(** C2, as the code has it.  Exactly 30 points are added when the first
    comma-delimited segment of the record's location, lower-cased and not
    trimmed, occurs in the lower-cased query, and nothing otherwise; what
    follows the first comma plays no part. *)
Theorem location_bonus_first_segment (query : string) (hotel : Listing) (score : Z) :
  let segment := toLowerCase (split_head "," (or_empty (location hotel))) in
  (Substring segment (toLowerCase query) ->
   location_bonus (toLowerCase query) hotel score = score + 30)
  /\ (~ Substring segment (toLowerCase query) ->
      location_bonus (toLowerCase query) hotel score = score)
  /\ (forall head rest,
        split_head "," head = head ->
        location hotel = Some (head ++ String "," rest) ->
        segment = toLowerCase head).
Proof.
  intros segment. unfold location_bonus. rewrite location_head_eq.
  fold segment. repeat split.
  - intros H. apply includes_spec in H. now rewrite H.
  - intros H. apply includes_false in H. now rewrite H.
  - intros head rest Hhead Hloc. unfold segment. rewrite Hloc. simpl or_empty.
    now rewrite split_head_append.
Qed.

Lemma location_bonus_first_segment_witness :
  location_bonus (toLowerCase "Stay in Calangute") Sample.beach_resort 0 = 0 + 30
  /\ location_bonus (toLowerCase "Trip to Goa") Sample.beach_resort 0 = 0
  /\ toLowerCase (split_head "," (or_empty (location Sample.beach_resort)))
     = toLowerCase "Calangute".
Proof.
  split; [|split].
  - apply (location_bonus_first_segment "Stay in Calangute" Sample.beach_resort 0).
    apply includes_spec. reflexivity.
  - apply (location_bonus_first_segment "Trip to Goa" Sample.beach_resort 0).
    apply includes_false. reflexivity.
  - apply (location_bonus_first_segment "" Sample.beach_resort 0) with (rest := " Goa");
      reflexivity.
Defined.

(** The claim C2 as worded fails: with the location "Goa , India" the
    trimmed first segment "goa" occurs in the query "hotels in goa", and the
    handler, which compares "goa " with its trailing space, adds nothing. *)
Lemma location_bonus_trimmed_fails :
  Substring (trimmed_location_head Sample.goa_villa) (toLowerCase "hotels in goa")
  /\ location_bonus (toLowerCase "hotels in goa") Sample.goa_villa 0 = 0.
Proof.
  split; [apply includes_spec|]; reflexivity.
Qed.

(** The region of "Calangute, Goa" alone earns no location bonus; the area
    does. *)
Example calangute_goa :
  location_bonus (toLowerCase "trip to Goa") Sample.beach_resort 0 = 0
  /\ location_bonus (toLowerCase "stay in Calangute") Sample.beach_resort 0 = 30.
Proof. split; reflexivity. Qed.

(** ** The price bonuses *)

Lemma Qltb_lt (x y : Q) : Qltb x y = true <-> (x < y)%Q.
Proof.
  unfold Qltb. rewrite negb_true_iff, <- not_true_iff_false, Qle_bool_iff.
  split; [apply Qnot_le_lt | apply Qlt_not_le].
Qed.

Lemma Qleb_le (x y : Q) : Qleb x y = true <-> (x <= y)%Q.
Proof. apply Qle_bool_iff. Qed.

(** The points of one price rule, given its condition. *)
Lemma flag_points_15 (b : bool) : flag_points b = 15 <-> b = true.
Proof. destruct b; split; intros; (reflexivity || discriminate). Qed.

Lemma flag_points_range (b : bool) : flag_points b = 15 \/ flag_points b = 0.
Proof. destruct b; [left | right]; reflexivity. Qed.

(** C3. 15 points are added iff the lower-cased query contains "budget" and
    the price is below 3000; 15 iff it contains "luxury" and the price is
    above 4000; 15 iff it contains "mid" and the price lies in [2500, 4500],
    bounds included; the three add up. *)
Theorem price_bonuses (query : string) (hotel : Listing) (score : Z) :
  exists budget luxury mid : Z,
    price_bonus (toLowerCase query) hotel score = score + budget + luxury + mid
    /\ (budget = 15 \/ budget = 0)
    /\ (budget = 15 <->
        Substring "budget" (toLowerCase query) /\ (price hotel < 3000)%Q)
    /\ (luxury = 15 \/ luxury = 0)
    /\ (luxury = 15 <->
        Substring "luxury" (toLowerCase query) /\ (4000 < price hotel)%Q)
    /\ (mid = 15 \/ mid = 0)
    /\ (mid = 15 <->
        Substring "mid" (toLowerCase query)
        /\ (2500 <= price hotel)%Q /\ (price hotel <= 4500)%Q).
Proof.
  exists (flag_points (includes (toLowerCase query) "budget"
                       && Qltb (price hotel) 3000)),
         (flag_points (includes (toLowerCase query) "luxury"
                       && Qltb 4000 (price hotel))),
         (flag_points (includes (toLowerCase query) "mid"
                       && Qleb 2500 (price hotel) && Qleb (price hotel) 4500)).
  split.
  { unfold price_bonus, flag_points.
    destruct (_ && Qltb (price hotel) 3000);
      destruct (_ && Qltb 4000 (price hotel));
      destruct (_ && _ && _); lia. }
  split; [apply flag_points_range|].
  split; [now rewrite flag_points_15, andb_true_iff, includes_spec, Qltb_lt|].
  split; [apply flag_points_range|].
  split; [now rewrite flag_points_15, andb_true_iff, includes_spec, Qltb_lt|].
  split; [apply flag_points_range|].
  rewrite flag_points_15, !andb_true_iff, includes_spec, !Qleb_le. tauto.
Qed.

(** ** [Array.prototype.sort] *)

Section Sorting.

Variable A : Type.
Variable cmp : A -> A -> JSNum.

(** The comparator is a difference of keys, [cmp x y = key y - key x], on
    the elements that satisfy [P]. *)
Variable key : A -> Z.
Variable P : A -> Prop.
Hypothesis cmp_key :
  forall x y, P x -> P y -> sort_compare cmp x y = key y - key x.

Lemma sort_insert_perm (x : A) (l : list A) :
  Permutation (x :: l) (sort_insert cmp x l).
Proof.
  induction l as [|y l IH]; simpl; [reflexivity|].
  destruct (sort_compare cmp x y <=? 0); [reflexivity|].
  rewrite perm_swap. now apply perm_skip.
Qed.

(** The sort permutes the array. *)
Lemma Array_sort_perm (l : list A) : Permutation l (Array_sort cmp l).
Proof.
  induction l as [|x l IH]; simpl; [constructor|].
  rewrite <- sort_insert_perm. now apply perm_skip.
Qed.

Lemma Array_sort_Forall (Q : A -> Prop) (l : list A) :
  Forall Q l -> Forall Q (Array_sort cmp l).
Proof.
  intros H. eapply Permutation_Forall; [apply Array_sort_perm | exact H].
Qed.

Lemma sort_insert_sorted (x : A) (l : list A) :
  P x -> Forall P l ->
  StronglySorted (fun a b => key b <= key a) l ->
  StronglySorted (fun a b => key b <= key a) (sort_insert cmp x l).
Proof.
  intros Px Pl Hs. induction Hs as [|y l Hs IH Hy]; simpl.
  - repeat constructor.
  - inversion Pl as [|? ? Py Pl']; subst.
    destruct (sort_compare cmp x y <=? 0) eqn:Hc.
    + apply Z.leb_le in Hc. rewrite cmp_key in Hc by assumption.
      constructor; [now constructor|].
      constructor; [lia|].
      eapply Forall_impl; [|exact Hy]. simpl. intros; lia.
    + apply Z.leb_gt in Hc. rewrite cmp_key in Hc by assumption.
      constructor; [now apply IH|].
      eapply Permutation_Forall; [apply sort_insert_perm|].
      constructor; [lia | exact Hy].
Qed.

(** The sorted array descends for [key]. *)
Lemma Array_sort_sorted (l : list A) :
  Forall P l ->
  StronglySorted (fun a b => key b <= key a) (Array_sort cmp l).
Proof.
  induction 1 as [|x l Px Pl IH]; simpl; [constructor|].
  apply sort_insert_sorted; [assumption | now apply Array_sort_Forall | exact IH].
Qed.

Lemma sort_insert_filter (s : Z) (x : A) (l : list A) :
  P x -> Forall P l ->
  filter (fun a => key a =? s) (sort_insert cmp x l)
  = filter (fun a => key a =? s) (x :: l).
Proof.
  intros Px Pl. induction Pl as [|y l Py Pl IH]; [reflexivity|].
  cbn [sort_insert].
  destruct (sort_compare cmp x y <=? 0) eqn:Hc; [reflexivity|].
  apply Z.leb_gt in Hc. rewrite cmp_key in Hc by assumption.
  cbn [filter] in *. rewrite IH.
  destruct (key y =? s) eqn:Hy; destruct (key x =? s) eqn:Hx;
    try reflexivity.
  apply Z.eqb_eq in Hy, Hx. lia.
Qed.

(** The sort is stable: the elements of any one key keep their order. *)
Lemma Array_sort_stable (s : Z) (l : list A) :
  Forall P l ->
  filter (fun a => key a =? s) (Array_sort cmp l)
  = filter (fun a => key a =? s) l.
Proof.
  induction 1 as [|x l Px Pl IH]; [reflexivity|].
  cbn [Array_sort fold_right].
  rewrite sort_insert_filter by (assumption || now apply Array_sort_Forall).
  cbn [filter]. fold (Array_sort cmp l). now rewrite IH.
Qed.

Lemma filter_key_nil (l : list A) :
  (forall s, filter (fun a => key a =? s) l = []) -> l = [].
Proof.
  destruct l as [|x l]; [reflexivity|]. intros H.
  specialize (H (key x)). cbn in H. rewrite Z.eqb_refl in H. discriminate.
Qed.

(** Two descending lists with the same elements of every key, in the same
    order, are equal: a stable descending sort has one possible result. *)
Lemma stable_sorted_unique (l1 l2 : list A) :
  StronglySorted (fun a b => key b <= key a) l1 ->
  StronglySorted (fun a b => key b <= key a) l2 ->
  (forall s, filter (fun a => key a =? s) l1 = filter (fun a => key a =? s) l2) ->
  l1 = l2.
Proof.
  intros H1. revert l2.
  induction H1 as [|x l1 H1 IH Hx]; intros l2 H2 Hf.
  - symmetry. apply filter_key_nil. intros s. now rewrite <- Hf.
  - destruct H2 as [|y l2 H2 Hy].
    + specialize (Hf (key x)). cbn in Hf. rewrite Z.eqb_refl in Hf. discriminate.
    + assert (Hxy : key x = key y).
      { assert (In x (y :: l2)) as Hin.
        { eapply (proj1 (filter_In _ x (y :: l2))). rewrite <- Hf.
          instantiate (1 := key x). cbn. rewrite Z.eqb_refl. now left. }
        assert (In y (x :: l1)) as Hin'.
        { eapply (proj1 (filter_In _ y (x :: l1))). rewrite Hf.
          instantiate (1 := key y). cbn. rewrite Z.eqb_refl. now left. }
        rewrite Forall_forall in Hx, Hy.
        destruct Hin as [->|Hin]; [reflexivity|].
        destruct Hin' as [->|Hin']; [reflexivity|].
        specialize (Hx _ Hin'). specialize (Hy _ Hin). lia. }
      pose proof (Hf (key x)) as Hk. cbn in Hk.
      rewrite <- Hxy, Z.eqb_refl in Hk. injection Hk as -> Hk.
      f_equal. apply IH; [assumption|]. intros s.
      specialize (Hf s). cbn in Hf.
      destruct (key y =? s); [now injection Hf | exact Hf].
Qed.

End Sorting.

(** ** Ranking *)

Lemma by_matchScore_key (x y : Hotel) :
  matchScore x <> None -> matchScore y <> None ->
  sort_compare by_matchScore x y = score_of y - score_of x.
Proof.
  unfold sort_compare, by_matchScore, score_of.
  destruct (matchScore x), (matchScore y); congruence.
Qed.

Lemma scored_all (queryLower : string) (hotels : list Hotel) :
  Forall (fun h => matchScore h <> None) (map (score_hotel queryLower) hotels).
Proof.
  apply Forall_forall. intros h Hh.
  apply in_map_iff in Hh as (h0 & <- & _). discriminate.
Qed.

Lemma score_is_key (s : Z) (l : list Hotel) :
  Forall (fun h => matchScore h <> None) l ->
  filter (score_is s) l = filter (fun h => score_of h =? s) l.
Proof.
  intros H. apply filter_ext_in. intros h Hh.
  rewrite Forall_forall in H. specialize (H h Hh).
  unfold score_is, score_of. destruct (matchScore h); congruence.
Qed.

Lemma sorted_ranked_above (l : list Hotel) :
  Forall (fun h => matchScore h <> None) l ->
  StronglySorted (fun a b => score_of b <= score_of a) l ->
  StronglySorted ranked_above l.
Proof.
  intros Hl Hs. induction Hs as [|x l Hs IH Hx]; [constructor|].
  inversion Hl as [|? ? Px Pl]; subst.
  constructor; [now apply IH|].
  rewrite Forall_forall in *. intros y Hy.
  specialize (Hx y Hy). specialize (Pl y Hy).
  unfold ranked_above, score_of in *.
  destruct (matchScore x) as [sx|], (matchScore y) as [sy|]; try congruence.
  now exists sx, sy.
Qed.

Lemma rank_scored (query : option string) (hotels : list Hotel) :
  truthy query = true -> hotels <> [] ->
  rank query hotels
  = Array_sort by_matchScore
      (map (score_hotel (toLowerCase (or_empty query))) hotels).
Proof.
  intros Hq Hh. unfold rank. rewrite Hq.
  destruct hotels; [contradiction | reflexivity].
Qed.

Lemma rank_skipped (query : option string) (hotels : list Hotel) :
  truthy query = false \/ hotels = [] -> rank query hotels = hotels.
Proof.
  unfold rank. intros [->| ->]; [reflexivity|].
  now rewrite andb_false_r.
Qed.

(** C5. With a query and a non-empty working set, the scored working set is
    reordered by [matchScore], highest first, and records of equal
    [matchScore] keep the order they had before the sort. *)
Theorem rank_stable_descending (query : option string) (hotels : list Hotel) :
  truthy query = true ->
  hotels <> [] ->
  let scored := map (score_hotel (toLowerCase (or_empty query))) hotels in
  Permutation scored (rank query hotels)
  /\ StronglySorted ranked_above (rank query hotels)
  /\ forall s, filter (score_is s) (rank query hotels) = filter (score_is s) scored.
Proof.
  intros Hq Hh scored. rewrite rank_scored by assumption. fold scored.
  pose proof (scored_all (toLowerCase (or_empty query)) hotels) as Hall.
  fold scored in Hall.
  split; [apply Array_sort_perm|]. split.
  - apply sorted_ranked_above; [now apply Array_sort_Forall|].
    eapply Array_sort_sorted; [|exact Hall].
    intros x y Hx Hy. now apply by_matchScore_key.
  - intros s. rewrite !score_is_key by (try apply Array_sort_Forall; exact Hall).
    eapply Array_sort_stable; [|exact Hall].
    intros x y Hx Hy. now apply by_matchScore_key.
Qed.

Lemma rank_stable_descending_witness :
  let query := Some "luxury hotel with gym" in
  let hotels := map lean Sample.db in
  let scored := map (score_hotel (toLowerCase (or_empty query))) hotels in
  Permutation scored (rank query hotels)
  /\ StronglySorted ranked_above (rank query hotels)
  /\ forall s, filter (score_is s) (rank query hotels) = filter (score_is s) scored.
Proof.
  apply (rank_stable_descending (Some "luxury hotel with gym") (map lean Sample.db));
    [reflexivity | discriminate].
Defined.

(** Any sort that returns the scored records in descending order and keeps
    the order of equal scores returns what [rank] returns. *)
Lemma rank_unique (query : option string) (hotels sorted : list Hotel) :
  truthy query = true ->
  hotels <> [] ->
  let scored := map (score_hotel (toLowerCase (or_empty query))) hotels in
  StronglySorted (fun a b => score_of b <= score_of a) sorted ->
  (forall s, filter (fun h => score_of h =? s) sorted
             = filter (fun h => score_of h =? s) scored) ->
  sorted = rank query hotels.
Proof.
  intros Hq Hh scored Hs Hf. rewrite rank_scored by assumption. fold scored.
  pose proof (scored_all (toLowerCase (or_empty query)) hotels) as Hall.
  fold scored in Hall.
  apply (stable_sorted_unique Hotel score_of); [exact Hs | |].
  - eapply Array_sort_sorted; [|exact Hall].
    intros x y Hx Hy. now apply by_matchScore_key.
  - intros s. rewrite Hf. symmetry.
    eapply Array_sort_stable; [|exact Hall].
    intros x y Hx Hy. now apply by_matchScore_key.
Qed.

(** ** [parseInt] on decimal digits *)

Section ParseInt.

Import DecimalString.

(** Evaluates [digit_value] on a character that is known. *)
Ltac eval_digit :=
  match goal with
  | |- context [digit_value 10 ?c] =>
      let v := eval vm_compute in (digit_value 10 c) in
      change (digit_value 10 c) with v
  end.

Lemma parse_digits_acc (d : Decimal.uint) (acc : positive) :
  parse_digits 10 (NilEmpty.string_of_uint d) (Num (Z.pos acc))
  = Num (Z.pos (Pos.of_uint_acc d acc)).
Proof.
  revert acc; induction d; intros acc; cbn [NilEmpty.string_of_uint];
    [reflexivity | ..];
    cbn [parse_digits]; eval_digit; cbn [Pos.of_uint_acc]; rewrite <- IHd;
    do 2 f_equal; lia.
Qed.

Lemma parse_digits_zero (d : Decimal.uint) :
  parse_digits 10 (NilEmpty.string_of_uint d) (Num 0)
  = Num (Z.of_N (Pos.of_uint d)).
Proof.
  induction d; cbn [NilEmpty.string_of_uint];
    [reflexivity | ..];
    cbn [parse_digits]; eval_digit; cbn [Pos.of_uint Z.mul Z.add Z.of_N];
    [exact IHd | ..]; apply parse_digits_acc.
Qed.

Lemma parse_digits_start (d : Decimal.uint) :
  d <> Decimal.Nil ->
  parse_digits 10 (NilEmpty.string_of_uint d) NaN
  = parse_digits 10 (NilEmpty.string_of_uint d) (Num 0).
Proof. destruct d; [contradiction | reflexivity ..]. Qed.

(** A number read without a sign keeps its value. *)
Lemma parseInt_result (r : JSNum) :
  match r with
  | NaN => NaN
  | Num z => Num (1 * z)
  | Infinity negative => Infinity negative
  end = r.
Proof. destruct r as [|z|b]; [reflexivity | now destruct z | reflexivity]. Qed.

Lemma parse_integer_uint (d : Decimal.uint) :
  parse_integer (NilZero.string_of_uint d) = Num (Z.of_N (N.of_uint d)).
Proof.
  unfold N.of_uint. rewrite <- parse_digits_zero.
  destruct d as [|d|d|d|d|d|d|d|d|d|d]; [reflexivity | ..];
    unfold NilZero.string_of_uint; cbn [NilEmpty.string_of_uint];
    [destruct d; cbn [NilEmpty.string_of_uint]; [reflexivity | ..] | ..];
    generalize (NilEmpty.string_of_uint d); intros s;
    unfold parse_integer; cbn; apply parseInt_result.
Qed.

Lemma parse_integer_decimal (n : N) : parse_integer (decimal n) = Num (Z.of_N n).
Proof.
  unfold decimal. now rewrite parse_integer_uint, DecimalN.Unsigned.of_to.
Qed.

(** Up to 2^53 in magnitude an integer is its own Number value. *)
Lemma to_double_safe (z : Z) : Z.abs z <= 2 ^ 53 -> to_double z = Num z.
Proof.
  intros H. unfold to_double. apply Z.leb_le in H. now rewrite H.
Qed.

(** The Number value of an integer is never [NaN]. *)
Lemma to_double_number (z : Z) : to_double z <> NaN.
Proof.
  unfold to_double. destruct (_ <=? 2 ^ 53); [discriminate|].
  cbv zeta. destruct (2 ^ 1024 <=? _); discriminate.
Qed.

(** [parseInt] reads the decimal digits of a natural number as the nearest
    Number. *)
Lemma parseInt_decimal_double (n : N) :
  parseInt (decimal n) = to_double (Z.of_N n).
Proof. unfold parseInt. now rewrite parse_integer_decimal. Qed.

(** [parseInt] reads back the decimal digits of a natural number up to
    2^53. *)
Lemma parseInt_decimal (n : N) :
  (n <= 2 ^ 53)%N -> parseInt (decimal n) = Num (Z.of_N n).
Proof.
  intros H. rewrite parseInt_decimal_double. apply to_double_safe. lia.
Qed.

Lemma decimal_truthy (n : N) : truthy (Some (decimal n)) = true.
Proof.
  unfold decimal, NilZero.string_of_uint.
  destruct (N.to_uint n); reflexivity.
Qed.

End ParseInt.

(** ** The handler *)

Section Handler.

Variable regex_i : string -> string -> bool.

Lemma search_pipeline (db : list Listing)
    (query location maxPrice amenity : option string) :
  search regex_i db query location maxPrice amenity
  = match working_set regex_i db location maxPrice with
    | None => Error500
    | Some hs =>
        Ok200 (mkBody true (List.length (pipeline query amenity hs))
                 (pipeline query amenity hs))
    end.
Proof. reflexivity. Qed.

(** The request fails only on a [maxPrice] that [parseInt] cannot read. *)
Lemma working_set_answers (db : list Listing) (location maxPrice : option string) :
  working_set regex_i db location maxPrice
  = if truthy maxPrice
    then match parseInt (or_empty maxPrice) with
         | NaN => None
         | _ =>
             Some (map lean
                     (filter (matches regex_i (build_filter location maxPrice)) db))
         end
    else Some (map lean
                 (filter (matches regex_i (build_filter location maxPrice)) db)).
Proof.
  unfold working_set, find, build_filter.
  destruct (truthy maxPrice); destruct (truthy location); cbn [flt_price];
    try destruct (parseInt (or_empty maxPrice)); reflexivity.
Qed.

Lemma working_set_filtered (db : list Listing) (location maxPrice : option string)
    (hs : list Hotel) :
  working_set regex_i db location maxPrice = Some hs ->
  hs = map lean (filter (matches regex_i (build_filter location maxPrice)) db).
Proof.
  rewrite working_set_answers.
  destruct (truthy maxPrice); [destruct (parseInt _)|]; congruence.
Qed.

Lemma working_set_unscored (db : list Listing) (location maxPrice : option string)
    (hs : list Hotel) :
  working_set regex_i db location maxPrice = Some hs ->
  Forall (fun h => matchScore h = None) hs.
Proof.
  intros H. apply working_set_filtered in H. subst hs.
  apply Forall_forall. intros h Hh. apply in_map_iff in Hh as (l & <- & _).
  reflexivity.
Qed.

End Handler.

(** Where the elements of the ranked array come from. *)
Lemma rank_origin (query : option string) (hs : list Hotel) (h : Hotel) :
  In h (rank query hs) ->
  In h hs
  \/ exists h0, In h0 hs /\ h = score_hotel (toLowerCase (or_empty query)) h0.
Proof.
  unfold rank. destruct (truthy query && _); [|now left].
  intros Hin. right.
  eapply Permutation_in in Hin; [|symmetry; apply Array_sort_perm].
  apply in_map_iff in Hin as (h0 & <- & Hh0). now exists h0.
Qed.

Lemma amenity_filter_incl (amenity : option string) (hs : list Hotel) (h : Hotel) :
  In h (amenity_filter amenity hs) -> In h hs.
Proof.
  unfold amenity_filter. destruct (truthy amenity); [|trivial].
  intros H. now apply filter_In in H.
Qed.

Lemma slice20_incl (hs : list Hotel) (h : Hotel) : In h (slice20 hs) -> In h hs.
Proof.
  unfold slice20. intros H.
  rewrite <- (firstn_skipn 20 hs). apply in_or_app. now left.
Qed.

Lemma pipeline_origin (query amenity : option string) (hs : list Hotel) (h : Hotel) :
  In h (pipeline query amenity hs) ->
  In h hs
  \/ exists h0, In h0 hs /\ h = score_hotel (toLowerCase (or_empty query)) h0.
Proof.
  unfold pipeline. intros H.
  now apply slice20_incl, amenity_filter_incl, rank_origin in H.
Qed.

Lemma pipeline_unranked (query amenity : option string) (hs : list Hotel) :
  truthy query = false \/ hs = [] ->
  pipeline query amenity hs = firstn 20 (amenity_filter amenity hs).
Proof.
  intros H. unfold pipeline, slice20. now rewrite rank_skipped.
Qed.

(** ** The score *)

Lemma raw_score_nonneg (queryLower : string) (hotel : Listing) :
  0 <= raw_score queryLower hotel.
Proof.
  unfold raw_score.
  pose proof (keyword_loop_lower_bound queryLower hotel 0) as Hk.
  set (s1 := keyword_loop queryLower hotel 0) in *.
  assert (Hl : s1 <= location_bonus queryLower hotel s1).
  { unfold location_bonus. destruct (includes _ _); lia. }
  set (s2 := location_bonus queryLower hotel s1) in *.
  assert (Hp : s2 <= price_bonus queryLower hotel s2).
  { unfold price_bonus.
    destruct (_ && Qltb (price hotel) 3000);
      destruct (_ && Qltb 4000 (price hotel));
      destruct (_ && _ && _); lia. }
  lia.
Qed.

(** C4. The [matchScore] attached to a record is the raw sum capped at 100;
    the raw sum is never negative, so the score lies in [0, 100]; and every
    [matchScore] in an answer of the handler lies in that range. *)
Theorem matchScore_range :
  (forall (queryLower : string) (hotel : Hotel),
     exists s,
       matchScore (score_hotel queryLower hotel) = Some s
       /\ s = Z.min (raw_score queryLower (doc hotel)) 100
       /\ 0 <= raw_score queryLower (doc hotel)
       /\ 0 <= s <= 100)
  /\ (forall regex_i db query location maxPrice amenity body h s,
        search regex_i db query location maxPrice amenity = Ok200 body ->
        In h (hotels body) ->
        matchScore h = Some s ->
        0 <= s <= 100).
Proof.
  split.
  - intros queryLower hotel. eexists. split; [reflexivity|].
    pose proof (raw_score_nonneg queryLower (doc hotel)). repeat split; lia.
  - intros regex_i db query location maxPrice amenity body h s Hs Hin Hm.
    rewrite search_pipeline in Hs.
    destruct (working_set _ _ _ _) as [hs|] eqn:Hw; [|discriminate].
    injection Hs as <-. cbn [hotels] in Hin.
    apply pipeline_origin in Hin as [Hin | (h0 & _ & ->)].
    + apply working_set_unscored in Hw. rewrite Forall_forall in Hw.
      rewrite (Hw h Hin) in Hm. discriminate.
    + cbn [score_hotel matchScore] in Hm. injection Hm as <-.
      pose proof (raw_score_nonneg (toLowerCase (or_empty query)) (doc h0)). lia.
Qed.

Lemma matchScore_range_witness :
  let query := "luxury hotel with gym and spa in Mumbai" in
  let h := score_hotel (toLowerCase query) (lean Sample.city_hotel) in
  exists body,
    search Sample.plain_regex Sample.db (Some query) None None None = Ok200 body
    /\ In h (hotels body)
    /\ raw_score (toLowerCase query) Sample.city_hotel = 135
    /\ matchScore h = Some 100
    /\ 0 <= 100 <= 100.
Proof.
  intros query h. eexists. split; [reflexivity|].
  assert (Hin : In h (hotels
                        {| success := true; count := 4;
                           hotels := pipeline (Some query) None (map lean Sample.db) |})).
  { left. reflexivity. }
  split; [exact Hin|]. split; [reflexivity|]. split; [reflexivity|].
  eapply (proj2 matchScore_range Sample.plain_regex Sample.db (Some query)
            None None None _ h 100); [reflexivity | exact Hin | reflexivity].
Defined.

(** Keyword matches alone can pass the cap: the score is then exactly 100. *)
Example score_capped :
  let hotel :=
    mkListing "64abc6" (Some "Luxury Beach Spa") (Some "pool gym garden sea")
      None 5000 (Some "Goa") None (Some ["Pool"; "Gym"; "Spa"]) in
  raw_score "luxury beach spa pool gym garden sea goa" hotel = 280
  /\ matchScore (score_hotel "luxury beach spa pool gym garden sea goa" (lean hotel))
     = Some 100.
Proof. split; reflexivity. Qed.

(** ** Without a query *)

(** C6. When the query is absent or empty, or the working set is empty, the
    answer holds the first 20 records of the structurally filtered
    candidates (location, maxPrice, then amenity), in that order, and none
    of them carries a [matchScore]. *)
Theorem no_query_no_score (regex_i : string -> string -> bool)
    (db : list Listing) (query location maxPrice amenity : option string)
    (hs : list Hotel) :
  working_set regex_i db location maxPrice = Some hs ->
  query = None \/ query = Some "" \/ hs = [] ->
  let candidates :=
    map lean (filter (matches regex_i (build_filter location maxPrice)) db) in
  let kept := firstn 20 (amenity_filter amenity candidates) in
  search regex_i db query location maxPrice amenity
  = Ok200 (mkBody true (List.length kept) kept)
  /\ Forall (fun h => matchScore h = None) kept.
Proof.
  intros Hw Hq candidates kept.
  assert (Hskip : truthy query = false \/ hs = []).
  { destruct Hq as [-> | [-> | ->]]; auto. }
  pose proof (working_set_filtered _ _ _ _ _ Hw) as Hhs. fold candidates in Hhs.
  rewrite search_pipeline, Hw, pipeline_unranked by assumption.
  rewrite Hhs. fold kept. split; [reflexivity|].
  apply Forall_forall. intros h Hh.
  apply slice20_incl, amenity_filter_incl in Hh.
  apply in_map_iff in Hh as (l & <- & _). reflexivity.
Qed.

Lemma no_query_no_score_witness :
  let hs := map lean [Sample.beach_resort; Sample.goa_villa] in
  let kept := [lean Sample.beach_resort] in
  working_set Sample.plain_regex Sample.db (Some "goa") (Some "4500") = Some hs
  /\ search Sample.plain_regex Sample.db (Some "") (Some "goa") (Some "4500") (Some "Pool")
     = Ok200 (mkBody true 1 kept)
  /\ Forall (fun h => matchScore h = None) kept.
Proof.
  split; [reflexivity|].
  apply (no_query_no_score Sample.plain_regex Sample.db (Some "") (Some "goa")
           (Some "4500") (Some "Pool")
           (map lean [Sample.beach_resort; Sample.goa_villa]));
    [reflexivity | right; left; reflexivity].
Defined.

(** ** The cap *)

Lemma pipeline_length (query amenity : option string) (hs : list Hotel) :
  (List.length (pipeline query amenity hs) <= 20)%nat.
Proof. unfold pipeline, slice20. apply firstn_le_length. Qed.

(** C7. Whatever the request and the size of the collection, the answer
    holds at most 20 records, the first 20 of the filtered and possibly
    ranked list, and [count] is the length of that list. *)
Theorem response_capped (regex_i : string -> string -> bool)
    (db : list Listing) (query location maxPrice amenity : option string)
    (body : Body) :
  search regex_i db query location maxPrice amenity = Ok200 body ->
  (List.length (hotels body) <= 20)%nat
  /\ count body = List.length (hotels body)
  /\ success body = true
  /\ exists hs,
       working_set regex_i db location maxPrice = Some hs
       /\ hotels body = firstn 20 (amenity_filter amenity (rank query hs)).
Proof.
  rewrite search_pipeline.
  destruct (working_set _ _ _ _) as [hs|]; [|discriminate].
  intros H. injection H as <-. cbn [hotels count success].
  repeat split; [apply pipeline_length|]. now exists hs.
Qed.

Lemma response_capped_witness :
  exists body,
    search Sample.plain_regex Sample.big_db (Some "hotel with pool") None None None
    = Ok200 body
    /\ List.length Sample.big_db = 25%nat
    /\ List.length (hotels body) = 20%nat
    /\ (List.length (hotels body) <= 20)%nat
    /\ count body = List.length (hotels body)
    /\ success body = true
    /\ exists hs,
         working_set Sample.plain_regex Sample.big_db None None = Some hs
         /\ hotels body = firstn 20 (amenity_filter None (rank (Some "hotel with pool") hs)).
Proof.
  eexists. split; [reflexivity|]. split; [reflexivity|]. split; [reflexivity|].
  apply (response_capped Sample.plain_regex Sample.big_db
           (Some "hotel with pool") None None None).
  reflexivity.
Defined.

(** The handler answers every request whose [maxPrice], if any, starts with
    an integer. *)
Lemma search_answers (regex_i : string -> string -> bool)
    (db : list Listing) (query location maxPrice amenity : option string) :
  search regex_i db query location maxPrice amenity = Error500
  <-> truthy maxPrice = true /\ parseInt (or_empty maxPrice) = NaN.
Proof.
  rewrite search_pipeline, working_set_answers.
  destruct (truthy maxPrice); [destruct (parseInt _)|];
    split; try discriminate; try tauto; intros [? ?]; discriminate.
Qed.

(** ** The price filter *)

Lemma location_ok_price (regex_i : string -> string -> bool)
    (location maxPrice : option string) (l : Listing) :
  location_ok regex_i (build_filter location maxPrice) l
  = location_ok regex_i (build_filter location None) l.
Proof.
  unfold location_ok, build_filter.
  destruct (truthy location), (truthy maxPrice); reflexivity.
Qed.

(** C8, as the code has it.  For a [maxPrice] written as the decimal digits
    of a natural number [n] not above 2^53, which a JavaScript number holds
    exactly, the working set holds exactly the documents that pass the
    location filter and whose price is at most [n], a price equal to [n]
    included, in collection order; and every record of every answer
    satisfies both filters, whatever the query. *)
Theorem maxPrice_filter_integer (regex_i : string -> string -> bool)
    (db : list Listing) (location : option string) (n : N) :
  (n <= 2 ^ 53)%N ->
  let keep l :=
    location_ok regex_i (build_filter location None) l
    && Qleb (price l) (inject_Z (Z.of_N n)) in
  working_set regex_i db location (Some (decimal n))
  = Some (map lean (filter keep db))
  /\ (forall l,
        In l (filter keep db)
        <-> In l db
            /\ location_ok regex_i (build_filter location None) l = true
            /\ (price l <= inject_Z (Z.of_N n))%Q)
  /\ (forall query amenity,
        exists body,
          search regex_i db query location (Some (decimal n)) amenity = Ok200 body
          /\ forall h, In h (hotels body) ->
               location_ok regex_i (build_filter location None) (doc h) = true
               /\ (price (doc h) <= inject_Z (Z.of_N n))%Q).
Proof.
  intros Hn keep.
  assert (Hkeep : forall l,
             matches regex_i (build_filter location (Some (decimal n))) l = keep l).
  { intros l. unfold matches, keep. rewrite location_ok_price. f_equal.
    unfold price_ok, build_filter. rewrite decimal_truthy. cbn [flt_price or_empty].
    now rewrite parseInt_decimal. }
  assert (Hw : working_set regex_i db location (Some (decimal n))
               = Some (map lean (filter keep db))).
  { rewrite working_set_answers, decimal_truthy. cbn [or_empty].
    rewrite parseInt_decimal by exact Hn. do 2 f_equal. apply filter_ext, Hkeep. }
  assert (Hin : forall l,
             In l (filter keep db)
             <-> In l db
                 /\ location_ok regex_i (build_filter location None) l = true
                 /\ (price l <= inject_Z (Z.of_N n))%Q).
  { intros l. rewrite filter_In. unfold keep.
    rewrite andb_true_iff, Qleb_le. reflexivity. }
  split; [exact Hw|]. split; [exact Hin|].
  intros query amenity. eexists. split.
  - rewrite search_pipeline, Hw. reflexivity.
  - cbn [hotels]. intros h Hh.
    assert (Hdoc : exists h0, In h0 (map lean (filter keep db)) /\ doc h = doc h0).
    { apply pipeline_origin in Hh as [Hh | (h0 & Hh0 & ->)];
        [now exists h | now exists h0]. }
    destruct Hdoc as (h0 & Hh0 & ->).
    apply in_map_iff in Hh0 as (l & <- & Hl). cbn [lean doc].
    now apply Hin in Hl.
Qed.

Lemma maxPrice_filter_integer_witness :
  let keep l :=
    location_ok Sample.plain_regex (build_filter (Some "goa") None) l
    && Qleb (price l) (inject_Z (Z.of_N 3500)) in
  working_set Sample.plain_regex Sample.db (Some "goa") (Some (decimal 3500))
  = Some (map lean (filter keep Sample.db))
  /\ (forall l,
        In l (filter keep Sample.db)
        <-> In l Sample.db
            /\ location_ok Sample.plain_regex (build_filter (Some "goa") None) l = true
            /\ (price l <= inject_Z (Z.of_N 3500))%Q)
  /\ (forall query amenity,
        exists body,
          search Sample.plain_regex Sample.db query (Some "goa")
            (Some (decimal 3500)) amenity = Ok200 body
          /\ forall h, In h (hotels body) ->
               location_ok Sample.plain_regex (build_filter (Some "goa") None) (doc h)
               = true
               /\ (price (doc h) <= inject_Z (Z.of_N 3500))%Q).
Proof.
  apply (maxPrice_filter_integer Sample.plain_regex Sample.db (Some "goa") 3500).
  now apply N.leb_le.
Defined.

(** The claim C8 as worded fails for a bound that is not an integer:
    "2500.5" denotes 2500.5, [parseInt] reads 2500, and a document priced
    2500.25, which is not above the bound, is left out. *)
Lemma maxPrice_fraction_truncated :
  decimal_value "2500.5" = Some (25005 # 10)
  /\ (price Sample.fractional_price <= 25005 # 10)%Q
  /\ parseInt "2500.5" = Num 2500
  /\ working_set Sample.plain_regex [Sample.fractional_price] None (Some "2500.5")
     = Some [].
Proof.
  repeat split. unfold Sample.fractional_price, price, Qle; simpl. lia.
Qed.

(** It fails as well for an integer beyond 2^53: 9007199254740995 is read
    as the double 9007199254740996, and a document priced 9007199254740996,
    which is above the bound, is kept. *)
Lemma maxPrice_rounded_beyond_2_53 :
  parseInt "9007199254740995" = Num 9007199254740996
  /\ (9007199254740995 < price Sample.huge_price)%Q
  /\ working_set Sample.plain_regex [Sample.huge_price] None
       (Some "9007199254740995")
     = Some [lean Sample.huge_price].
Proof.
  split; [vm_compute; reflexivity|]. split; [reflexivity|].
  vm_compute. reflexivity.
Qed.

(** The price boundary: a document priced exactly at the bound is kept, one
    priced above it is not. *)
Example maxPrice_boundary :
  working_set Sample.plain_regex Sample.db None (Some "3500")
  = Some (map lean [Sample.beach_resort; Sample.hill_cottage]).
Proof. reflexivity. Qed.

(** ** The heap *)

Section Heap.

Import Store.
Local Open Scope list_scope.

Lemma unchanged_refl (s : heap) : unchanged s s.
Proof. intros r c H. exact H. Qed.

Lemma unchanged_trans (s1 s2 s3 : heap) :
  unchanged s1 s2 -> unchanged s2 s3 -> unchanged s1 s3.
Proof. intros H12 H23 r c H. apply H23, H12, H. Qed.

Lemma unchanged_app (s ext : heap) : unchanged s (s ++ ext).
Proof.
  intros r c H. rewrite nth_error_app1; [exact H|].
  apply nth_error_Some. congruence.
Qed.

Lemma unchanged_length (s s' : heap) :
  unchanged s s' -> (List.length s <= List.length s')%nat.
Proof.
  intros H. destruct s as [|c s] using rev_ind; [simpl; lia|].
  specialize (H (List.length s) c).
  rewrite nth_error_app2, Nat.sub_diag in H by lia.
  specialize (H eq_refl).
  assert (List.length s < List.length s')%nat
    by (apply nth_error_Some; congruence).
  rewrite length_app. simpl. lia.
Qed.

Lemma view_refs_cons (s : heap) (r : ref) (elems : list ref) :
  view_refs s (r :: elems)
  = match nth_error s r, view_refs s elems with
    | Some (Obj h), Some hs => Some (h :: hs)
    | _, _ => None
    end.
Proof. reflexivity. Qed.

(** Reading an array of objects, case by case. *)
Lemma view_refs_inv (s : heap) (r : ref) (elems : list ref) (hs : list Hotel) :
  view_refs s (r :: elems) = Some hs ->
  exists h hs', hs = h :: hs'
                /\ nth_error s r = Some (Obj h)
                /\ view_refs s elems = Some hs'.
Proof.
  rewrite view_refs_cons.
  destruct (nth_error s r) as [[h|]|]; try discriminate.
  destruct (view_refs s elems) as [hs'|]; try discriminate.
  intros H. injection H as <-. now exists h, hs'.
Qed.

Lemma view_refs_unchanged (s s' : heap) (elems : list ref) (hs : list Hotel) :
  unchanged s s' ->
  view_refs s elems = Some hs -> view_refs s' elems = Some hs.
Proof.
  intros Hu. revert hs. induction elems as [|r elems IH]; intros hs H.
  - exact H.
  - apply view_refs_inv in H as (h & hs' & -> & Hr & Hv).
    rewrite view_refs_cons, (Hu _ _ Hr), (IH _ Hv). reflexivity.
Qed.

Lemma holds_unchanged (s s' : heap) (arr : ref) (elems : list ref)
    (hs : list Hotel) :
  unchanged s s' -> holds s arr elems hs -> holds s' arr elems hs.
Proof.
  intros Hu [Ha Hv]. split; [now apply Hu | now apply view_refs_unchanged with s].
Qed.

Lemma view_refs_length (s : heap) (elems : list ref) (hs : list Hotel) :
  view_refs s elems = Some hs -> List.length hs = List.length elems.
Proof.
  revert hs. induction elems as [|r elems IH]; intros hs H.
  - injection H as <-. reflexivity.
  - apply view_refs_inv in H as (h & hs' & -> & _ & Hv).
    simpl. now rewrite (IH _ Hv).
Qed.

(** Objects allocated in a row are read back in that order. *)
Lemma view_refs_allocated (s : heap) (l : list Hotel) :
  view_refs (s ++ map Obj l) (seq (List.length s) (List.length l)) = Some l.
Proof.
  revert s. induction l as [|h l IH]; intros s; [reflexivity|].
  cbn [List.length seq map]. rewrite view_refs_cons.
  rewrite nth_error_app2, Nat.sub_diag by lia. cbn [nth_error].
  specialize (IH (s ++ [Obj h])%list).
  rewrite <- app_assoc, length_app, Nat.add_1_r in IH. cbn [app] in IH.
  now rewrite IH.
Qed.

(** The objects an array refers to do not depend on what lies beyond them. *)
Lemma view_refs_base (base e1 e2 : heap) (elems : list ref) :
  Forall (fun r => (r < List.length base)%nat) elems ->
  view_refs (base ++ e1) elems = view_refs (base ++ e2) elems.
Proof.
  induction 1 as [|r elems Hr _ IH]; [reflexivity|].
  now rewrite !view_refs_cons, !nth_error_app1, IH by assumption.
Qed.

Lemma update_last (l : heap) (c0 c : cell) :
  update (List.length l) c (l ++ [c0]) = (l ++ [c])%list.
Proof. induction l as [|x l IH]; simpl; [reflexivity | now rewrite IH]. Qed.

(** ** The steps of the handler on the heap *)

Lemma mapM_score (queryLower : string) (elems : list ref) :
  forall (s : heap) (hs : list Hotel),
    view_refs s elems = Some hs ->
    mapM (fun r => hotel <- get_obj r ;;
                   alloc (Obj (score_hotel queryLower hotel))) elems s
    = Some (seq (List.length s) (List.length elems),
            (s ++ map Obj (map (score_hotel queryLower) hs))%list).
Proof.
  induction elems as [|r elems IH]; intros s hs H.
  - injection H as <-. cbn. now rewrite app_nil_r.
  - apply view_refs_inv in H as (h & hs' & -> & Hr & Hv).
    cbn [mapM]. unfold bind at 1. unfold bind at 1, get_obj at 1.
    rewrite Hr. unfold alloc at 1. unfold bind at 1.
    rewrite (IH (s ++ [Obj (score_hotel queryLower h)])%list hs')
      by (eapply view_refs_unchanged; [apply unchanged_app | exact Hv]).
    unfold ret. rewrite length_app, Nat.add_1_r. cbn [List.length seq map].
    now rewrite <- app_assoc.
Qed.

Lemma mapM_read {B} (f : Hotel -> B) (elems : list ref) :
  forall (s : heap) (hs : list Hotel),
    view_refs s elems = Some hs ->
    mapM (fun r => hotel <- get_obj r ;; ret (f hotel)) elems s
    = Some (map f hs, s).
Proof.
  induction elems as [|r elems IH]; intros s hs H.
  - injection H as <-. reflexivity.
  - apply view_refs_inv in H as (h & hs' & -> & Hr & Hv).
    cbn [mapM]. unfold bind at 1. unfold bind at 1, get_obj at 1.
    rewrite Hr. unfold ret at 1. unfold bind at 1.
    now rewrite (IH s hs' Hv).
Qed.

Lemma view_refs_filter (f : Hotel -> bool) (s : heap) (elems : list ref) :
  forall hs,
    view_refs s elems = Some hs ->
    view_refs s (map fst (filter snd (combine elems (map f hs))))
    = Some (filter f hs).
Proof.
  induction elems as [|r elems IH]; intros hs H.
  - injection H as <-. reflexivity.
  - apply view_refs_inv in H as (h & hs' & -> & Hr & Hv).
    cbn [map combine filter snd]. specialize (IH _ Hv).
    destruct (f h); cbn [map fst]; [|exact IH].
    now rewrite view_refs_cons, Hr, IH.
Qed.

Lemma filter_combine_incl {B} (elems : list ref) (keep : list B)
    (p : ref * B -> bool) :
  incl (map fst (filter p (combine elems keep))) elems.
Proof.
  intros r Hr. apply in_map_iff in Hr as ([r' b] & <- & Hin).
  apply filter_In in Hin as [Hin _]. now apply in_combine_l in Hin.
Qed.

Lemma view_refs_firstn (n : nat) (s : heap) (elems : list ref) :
  forall hs,
    view_refs s elems = Some hs ->
    view_refs s (firstn n elems) = Some (firstn n hs).
Proof.
  revert elems. induction n as [|n IH]; intros elems hs H; [reflexivity|].
  destruct elems as [|r elems].
  - injection H as <-. reflexivity.
  - apply view_refs_inv in H as (h & hs' & -> & Hr & Hv).
    cbn [firstn]. now rewrite view_refs_cons, Hr, (IH _ _ Hv).
Qed.

Lemma firstn_incl {A} (n : nat) (l : list A) : incl (firstn n l) l.
Proof.
  intros x Hx. rewrite <- (firstn_skipn n l). apply in_or_app. now left.
Qed.

Lemma view_refs_sort_insert (s : heap) (x : ref) (h : Hotel) (elems : list ref) :
  forall hs,
    nth_error s x = Some (Obj h) ->
    view_refs s elems = Some hs ->
    view_refs s (sort_insert (cmp_ref s) x elems)
    = Some (sort_insert by_matchScore h hs).
Proof.
  induction elems as [|y elems IH]; intros hs Hx H.
  - injection H as <-. cbn [sort_insert]. now rewrite view_refs_cons, Hx.
  - pose proof H as H0.
    apply view_refs_inv in H as (hy & hs' & -> & Hy & Hv).
    cbn [sort_insert].
    replace (sort_compare (cmp_ref s) x y) with (sort_compare by_matchScore h hy)
      by (unfold sort_compare, cmp_ref; now rewrite Hx, Hy).
    destruct (sort_compare by_matchScore h hy <=? 0).
    + now rewrite view_refs_cons, Hx, H0.
    + now rewrite view_refs_cons, Hy, (IH _ Hx Hv).
Qed.

(** Sorting the references with the comparator that reads the heap sorts
    the objects they refer to. *)
Lemma view_refs_sort (s : heap) (elems : list ref) :
  forall hs,
    view_refs s elems = Some hs ->
    view_refs s (Array_sort (cmp_ref s) elems)
    = Some (Array_sort by_matchScore hs).
Proof.
  induction elems as [|x elems IH]; intros hs H.
  - injection H as <-. reflexivity.
  - apply view_refs_inv in H as (h & hs' & -> & Hx & Hv).
    cbn [Array_sort fold_right].
    apply view_refs_sort_insert; [exact Hx | now apply IH].
Qed.

End Heap.

Section HeapSteps.

Local Open Scope list_scope.

Lemma map_score_run (queryLower : string) (s : Store.heap) (arr : Store.ref)
    (elems : list Store.ref) (hs : list Hotel) :
  holds s arr elems hs ->
  Store.map_score queryLower arr s
  = Some (List.length s + List.length hs,
          (s ++ map Store.Obj (map (score_hotel queryLower) hs))
          ++ [Store.Arr (seq (List.length s) (List.length hs))])%nat.
Proof.
  intros [Ha Hv]. unfold Store.map_score. unfold Store.bind at 1. unfold Store.get_arr at 1.
  rewrite Ha. unfold Store.bind at 1.
  rewrite (mapM_score queryLower elems s hs Hv). unfold Store.alloc.
  rewrite length_app, !length_map, (view_refs_length _ _ _ Hv). reflexivity.
Qed.

Lemma sort_in_place_run (base : Store.heap) (news : list Store.ref) (scored : list Hotel) :
  Store.view_refs base news = Some scored ->
  Forall (fun r => (r < List.length base)%nat) news ->
  let sorted := Array_sort (Store.cmp_ref (base ++ [Store.Arr news])) news in
  Store.sort_in_place (List.length base) (base ++ [Store.Arr news])
  = Some (tt, base ++ [Store.Arr sorted])
  /\ holds (base ++ [Store.Arr sorted]) (List.length base) sorted
       (Array_sort by_matchScore scored)
  /\ Permutation news sorted.
Proof.
  intros Hv Hlt sorted.
  assert (Hnth : forall l, nth_error (base ++ [Store.Arr l]) (List.length base)
                           = Some (Store.Arr l)).
  { intros l. now rewrite nth_error_app2, Nat.sub_diag by lia. }
  assert (Hperm : Permutation news sorted) by apply Array_sort_perm.
  repeat split.
  - unfold Store.sort_in_place, Store.bind, Store.get_arr, Store.set_arr. rewrite !Hnth.
    fold sorted. now rewrite update_last.
  - apply Hnth.
  - rewrite (view_refs_base base [Store.Arr sorted] [Store.Arr news]).
    + apply view_refs_sort.
      eapply view_refs_unchanged; [apply unchanged_app | exact Hv].
    + eapply Permutation_Forall; [exact Hperm | exact Hlt].
  - exact Hperm.
Qed.

Lemma seq_bounds (a n : nat) :
  Forall (fun r => (a <= r < a + n)%nat) (seq a n).
Proof. apply Forall_forall. intros r Hr. apply in_seq in Hr. lia. Qed.

(** The ranking block on the heap: it allocates the scored copies and the
    array it sorts, and changes nothing else. *)
Lemma rank_run (query : option string) (s : Store.heap) (arr : Store.ref)
    (elems : list Store.ref) (hs : list Hotel) :
  holds s arr elems hs ->
  exists arr' s' elems',
    Store.rank query arr s = Some (arr', s')
    /\ unchanged s s'
    /\ holds s' arr' elems' (rank query hs)
    /\ Forall (fun r => In r elems \/ fresh s r) elems'
    /\ (truthy query = true -> hs <> [] -> Forall (fresh s) elems').
Proof.
  intros Hh. pose proof Hh as [Ha Hv].
  pose proof (view_refs_length _ _ _ Hv) as Hlen.
  unfold Store.rank, rank. unfold Store.bind at 1. unfold Store.get_arr at 1.
  rewrite Ha, <- Hlen.
  destruct (truthy query && (0 <? List.length hs)%nat) eqn:Hc.
  - set (ql := toLowerCase (or_empty query)).
    set (scored := map (score_hotel ql) hs).
    set (base := s ++ map Store.Obj scored).
    set (news := seq (List.length s) (List.length hs)).
    assert (Hbase : List.length base = (List.length s + List.length hs)%nat).
    { unfold base, scored. now rewrite length_app, !length_map. }
    assert (Hnews : Store.view_refs base news = Some scored).
    { unfold base, news. rewrite <- (length_map (score_hotel ql) hs).
      apply view_refs_allocated. }
    assert (Hlt : Forall (fun r => (r < List.length base)%nat) news).
    { eapply Forall_impl; [|apply seq_bounds]. simpl. intros r Hr.
      rewrite Hbase. lia. }
    destruct (sort_in_place_run base news scored Hnews Hlt)
      as (Hrun & Hholds & Hperm).
    set (sorted := Array_sort (Store.cmp_ref (base ++ [Store.Arr news])) news) in *.
    assert (Hfresh : Forall (fresh s) sorted).
    { eapply Permutation_Forall; [exact Hperm|].
      eapply Forall_impl; [|apply seq_bounds]. unfold fresh. simpl. intros; lia. }
    exists (List.length base), (base ++ [Store.Arr sorted]), sorted.
    split; [|split; [|split; [|split]]].
    + unfold Store.bind. rewrite (map_score_run ql s arr elems hs Hh).
      fold scored base news. rewrite <- Hbase, Hrun. reflexivity.
    + unfold base. rewrite <- app_assoc. apply unchanged_app.
    + exact Hholds.
    + eapply Forall_impl; [|exact Hfresh]. simpl. intros; now right.
    + intros _ _. exact Hfresh.
  - exists arr, s, elems.
    split; [reflexivity|]. split; [apply unchanged_refl|].
    split; [exact Hh|]. split.
    + apply Forall_forall. intros; now left.
    + intros Hq Hne. rewrite Hq in Hc. destruct hs; [contradiction | discriminate].
Qed.

Lemma amenity_filter_run (amenity : option string) (s : Store.heap) (arr : Store.ref)
    (elems : list Store.ref) (hs : list Hotel) :
  holds s arr elems hs ->
  exists arr' s' elems',
    Store.amenity_filter amenity arr s = Some (arr', s')
    /\ unchanged s s'
    /\ holds s' arr' elems' (amenity_filter amenity hs)
    /\ incl elems' elems.
Proof.
  intros Hh. pose proof Hh as [Ha Hv].
  unfold Store.amenity_filter, amenity_filter.
  destruct (truthy amenity).
  - set (f := has_amenity (toLowerCase (or_empty amenity))).
    set (kept := map fst (filter snd (combine elems (map f hs)))).
    exists (List.length s), (s ++ [Store.Arr kept]), kept.
    split; [|split; [|split]].
    + unfold Store.bind at 1. unfold Store.get_arr at 1. rewrite Ha. unfold Store.bind at 1.
      fold f. rewrite (mapM_read f elems s hs Hv). reflexivity.
    + apply unchanged_app.
    + split.
      * now rewrite nth_error_app2, Nat.sub_diag by lia.
      * eapply view_refs_unchanged; [apply unchanged_app|].
        now apply view_refs_filter.
    + apply filter_combine_incl.
  - exists arr, s, elems.
    split; [reflexivity|]. split; [apply unchanged_refl|].
    split; [exact Hh | apply incl_refl].
Qed.

Lemma slice20_run (s : Store.heap) (arr : Store.ref) (elems : list Store.ref) (hs : list Hotel) :
  holds s arr elems hs ->
  exists arr' s' elems',
    Store.slice20 arr s = Some (arr', s')
    /\ unchanged s s'
    /\ holds s' arr' elems' (slice20 hs)
    /\ incl elems' elems.
Proof.
  intros [Ha Hv].
  exists (List.length s), (s ++ [Store.Arr (firstn 20 elems)]), (firstn 20 elems).
  split; [|split; [|split]].
  - unfold Store.slice20, Store.bind, Store.get_arr, Store.alloc. now rewrite Ha.
  - apply unchanged_app.
  - split.
    + now rewrite nth_error_app2, Nat.sub_diag by lia.
    + eapply view_refs_unchanged; [apply unchanged_app|].
      now apply view_refs_firstn.
  - apply firstn_incl.
Qed.

(** The handler on the heap computes [pipeline] on the objects it was given,
    leaves every cell it found as it was, and, when it ranks, answers with
    objects it allocated itself. *)
Lemma pipeline_run (query amenity : option string) (s : Store.heap) (arr : Store.ref)
    (elems : list Store.ref) (hs : list Hotel) :
  holds s arr elems hs ->
  exists arr' s' elems',
    Store.pipeline query amenity arr s = Some (arr', s')
    /\ unchanged s s'
    /\ holds s' arr' elems' (pipeline query amenity hs)
    /\ (truthy query = true -> hs <> [] -> Forall (fresh s) elems').
Proof.
  intros Hh.
  destruct (rank_run query s arr elems hs Hh)
    as (a1 & s1 & e1 & Hr1 & Hu1 & Hh1 & _ & Hf1).
  destruct (amenity_filter_run amenity s1 a1 e1 _ Hh1)
    as (a2 & s2 & e2 & Hr2 & Hu2 & Hh2 & Hi2).
  destruct (slice20_run s2 a2 e2 _ Hh2)
    as (a3 & s3 & e3 & Hr3 & Hu3 & Hh3 & Hi3).
  exists a3, s3, e3. split; [|split; [|split]].
  - unfold Store.pipeline, Store.bind. now rewrite Hr1, Hr2.
  - eauto using unchanged_trans.
  - exact Hh3.
  - intros Hq Hne. specialize (Hf1 Hq Hne). rewrite Forall_forall in *.
    intros r Hr. apply Hf1, Hi2, Hi3, Hr.
Qed.

(** The store's answer, placed in any heap, is read back as it was given. *)
Lemma load_run (hs : list Hotel) (s0 : Store.heap) :
  exists arr s elems,
    Store.load hs s0 = Some (arr, s)
    /\ unchanged s0 s
    /\ holds s arr elems hs.
Proof.
  assert (Hm : forall l s,
             Store.mapM (fun h => Store.alloc (Store.Obj h)) l s
             = Some (seq (List.length s) (List.length l), s ++ map Store.Obj l)).
  { induction l as [|h l IH]; intros s.
    - cbn. now rewrite app_nil_r.
    - cbn [Store.mapM]. unfold Store.bind at 1, Store.alloc at 1. unfold Store.bind at 1.
      rewrite IH. unfold Store.ret. rewrite length_app, Nat.add_1_r.
      cbn [List.length seq map]. now rewrite <- app_assoc. }
  set (refs := seq (List.length s0) (List.length hs)).
  exists (List.length (s0 ++ map Store.Obj hs)), ((s0 ++ map Store.Obj hs) ++ [Store.Arr refs]), refs.
  split; [|split].
  - unfold Store.load, Store.bind. rewrite Hm. reflexivity.
  - rewrite <- app_assoc. apply unchanged_app.
  - split.
    + now rewrite nth_error_app2, Nat.sub_diag by lia.
    + eapply view_refs_unchanged; [apply unchanged_app|].
      apply view_refs_allocated.
Qed.

End HeapSteps.

(** ** Determinism and purity *)

(** C9. The answer is a function of the request and of the candidate
    records: run on any heap, the handler answers with the records, order
    and scores that [search] computes, whatever else the heap holds; every
    cell that was there before the run, the candidate records and their
    array among them, is the same afterwards; and when the handler ranks,
    the records it answers with are objects it allocated itself. *)
Theorem search_pure (regex_i : string -> string -> bool) (db : list Listing)
    (query location maxPrice amenity : option string) (body : Body)
    (s0 : Store.heap) :
  search regex_i db query location maxPrice amenity = Ok200 body ->
  exists hs arr s elems arr' s' elems',
    working_set regex_i db location maxPrice = Some hs
    /\ Store.load hs s0 = Some (arr, s)
    /\ holds s arr elems hs
    /\ Store.pipeline query amenity arr s = Some (arr', s')
    /\ holds s' arr' elems' (hotels body)
    /\ Store.view s' arr' = Some (hotels body)
    /\ unchanged s s'
    /\ holds s' arr elems hs
    /\ (truthy query = true -> hs <> [] -> Forall (fresh s) elems').
Proof.
  rewrite search_pipeline.
  destruct (working_set _ _ _ _) as [hs|] eqn:Hw; [|discriminate].
  intros H. injection H as <-. cbn [hotels].
  destruct (load_run hs s0) as (arr & s & elems & Hload & _ & Hh).
  destruct (pipeline_run query amenity s arr elems hs Hh)
    as (arr' & s' & elems' & Hrun & Hu & Hh' & Hf).
  exists hs, arr, s, elems, arr', s', elems'.
  repeat split; try assumption; try apply Hh; try apply Hh'.
  - unfold Store.view. destruct Hh' as [-> Hv]. exact Hv.
  - now apply Hu, Hh.
  - eapply view_refs_unchanged; [exact Hu | apply Hh].
Qed.

Lemma search_pure_witness :
  let s0 := [Store.Arr []; Store.Obj (lean Sample.city_hotel)] in
  exists body,
    search Sample.plain_regex Sample.db (Some "budget stay near the beach")
      None (Some "4500") None = Ok200 body
    /\ exists hs arr s elems arr' s' elems',
         working_set Sample.plain_regex Sample.db None (Some "4500") = Some hs
         /\ Store.load hs s0 = Some (arr, s)
         /\ holds s arr elems hs
         /\ Store.pipeline (Some "budget stay near the beach") None arr s
            = Some (arr', s')
         /\ holds s' arr' elems' (hotels body)
         /\ Store.view s' arr' = Some (hotels body)
         /\ unchanged s s'
         /\ holds s' arr elems hs
         /\ (truthy (Some "budget stay near the beach") = true ->
             hs <> [] -> Forall (fresh s) elems').
Proof.
  intros s0. eexists. split; [reflexivity|].
  apply (search_pure Sample.plain_regex Sample.db
           (Some "budget stay near the beach") None (Some "4500") None _ s0).
  reflexivity.
Defined.

(** The handler run on a small heap: the two candidates at cells 1 and 2
    and their array at cell 3 are untouched, the answer is the array at
    cell 7 over the scored copies at cells 5 and 4. *)
Example pipeline_on_heap :
  let s0 := [Store.Arr []] in
  let hs := map lean [Sample.beach_resort; Sample.city_hotel] in
  exists s,
    Store.load hs s0 = Some (3%nat, s)
    /\ exists s',
         Store.pipeline (Some "luxury gym") None 3%nat s = Some (7%nat, s')
         /\ firstn 4 s' = s
         /\ nth_error s' 3 = Some (Store.Arr [1; 2]%nat)
         /\ nth_error s' 6 = Some (Store.Arr [5; 4]%nat)
         /\ nth_error s' 7 = Some (Store.Arr [5; 4]%nat).
Proof.
  eexists. split; [reflexivity|]. eexists. split; [reflexivity|].
  repeat split.
Qed.

(** * Further properties of the search handler *)

Section SortedLists.

Variable A : Type.
Variable R : A -> A -> Prop.

Lemma StronglySorted_filter (f : A -> bool) (l : list A) :
  StronglySorted R l -> StronglySorted R (filter f l).
Proof.
  induction 1 as [|x l Hs IH Hx]; cbn [filter]; [constructor|].
  destruct (f x); [|exact IH].
  constructor; [exact IH|].
  apply Forall_forall. intros y Hy. apply filter_In in Hy as [Hy _].
  rewrite Forall_forall in Hx. now apply Hx.
Qed.

Lemma StronglySorted_firstn (n : nat) (l : list A) :
  StronglySorted R l -> StronglySorted R (firstn n l).
Proof.
  intros Hs. revert n. induction Hs as [|x l Hs IH Hx]; intros [|n];
    cbn [firstn]; try constructor.
  - apply IH.
  - apply Forall_forall. intros y Hy. rewrite Forall_forall in Hx.
    apply Hx. rewrite <- (firstn_skipn n l). apply in_or_app. now left.
Qed.

(** In a sorted list, whatever lies beyond a cut is below whatever lies
    before it. *)
Lemma StronglySorted_cut (n : nat) (l : list A) (a b : A) :
  StronglySorted R l -> In a (firstn n l) -> In b (skipn n l) -> R a b.
Proof.
  intros Hs. revert n. induction Hs as [|x l Hs IH Hx]; intros n Ha Hb.
  - destruct n; contradiction.
  - destruct n as [|n]; [contradiction|].
    cbn [firstn skipn] in Ha, Hb. destruct Ha as [<-|Ha].
    + rewrite Forall_forall in Hx. apply Hx.
      rewrite <- (firstn_skipn n l). apply in_or_app. now right.
    + now apply (IH n).
Qed.

End SortedLists.

Lemma rank_sorted (query : option string) (hs : list Hotel) :
  truthy query = true -> StronglySorted ranked_above (rank query hs).
Proof.
  intros Hq. destruct hs as [|h hs].
  - rewrite rank_skipped by now right. constructor.
  - rewrite rank_scored by (assumption || discriminate).
    pose proof (scored_all (toLowerCase (or_empty query)) (h :: hs)) as Hall.
    apply sorted_ranked_above; [now apply Array_sort_Forall|].
    eapply Array_sort_sorted; [|exact Hall].
    intros x y Hx Hy. now apply by_matchScore_key.
Qed.

Lemma amenity_filter_sorted (amenity : option string) (l : list Hotel) :
  StronglySorted ranked_above l ->
  StronglySorted ranked_above (amenity_filter amenity l).
Proof.
  unfold amenity_filter. destruct (truthy amenity); [|trivial].
  apply StronglySorted_filter.
Qed.

(** X1. The answer to a request with a query is in descending order of
    [matchScore]: the amenity filter and the cut at 20 keep the order the
    sort produced. *)
Theorem response_sorted (regex_i : string -> string -> bool)
    (db : list Listing) (query location maxPrice amenity : option string)
    (body : Body) :
  search regex_i db query location maxPrice amenity = Ok200 body ->
  truthy query = true ->
  StronglySorted ranked_above (hotels body).
Proof.
  rewrite search_pipeline.
  destruct (working_set _ _ _ _) as [hs|]; [|discriminate].
  intros H Hq. injection H as <-. cbn [hotels]. unfold pipeline, slice20.
  apply StronglySorted_firstn, amenity_filter_sorted, rank_sorted, Hq.
Qed.

Lemma response_sorted_witness :
  exists body,
    search Sample.plain_regex Sample.db (Some "luxury gym near the beach")
      None None (Some "pool") = Ok200 body
    /\ map matchScore (hotels body) = [Some 40]
    /\ StronglySorted ranked_above (hotels body).
Proof.
  eexists. split; [reflexivity|]. split; [reflexivity|].
  apply (response_sorted Sample.plain_regex Sample.db
           (Some "luxury gym near the beach") None None (Some "pool"));
    reflexivity.
Defined.

(** X2. The cut at 20 keeps the best: with a query, every record that
    passed the filters and was left out is ranked no higher than every
    record of the answer. *)
Theorem cut_keeps_best (regex_i : string -> string -> bool)
    (db : list Listing) (query location maxPrice amenity : option string)
    (body : Body) (hs : list Hotel) (a b : Hotel) :
  search regex_i db query location maxPrice amenity = Ok200 body ->
  working_set regex_i db location maxPrice = Some hs ->
  truthy query = true ->
  In a (hotels body) ->
  In b (skipn 20 (amenity_filter amenity (rank query hs))) ->
  ranked_above a b.
Proof.
  rewrite search_pipeline. intros H Hw Hq Ha Hb. rewrite Hw in H.
  injection H as <-. cbn [hotels] in Ha. unfold pipeline, slice20 in Ha.
  eapply StronglySorted_cut; [|exact Ha | exact Hb].
  apply amenity_filter_sorted, rank_sorted, Hq.
Qed.

Lemma cut_keeps_best_witness :
  let query := Some "hotel with gym" in
  let hs := map lean Sample.big_db in
  let a := score_hotel "hotel with gym" (lean Sample.city_hotel) in
  let b := score_hotel "hotel with gym" (lean Sample.goa_villa) in
  In b (skipn 20 (amenity_filter None (rank query hs)))
  /\ matchScore a = Some 45 /\ matchScore b = Some 0
  /\ ranked_above a b.
Proof.
  intros query hs a b.
  assert (Hb : In b (skipn 20 (amenity_filter None (rank query hs))))
    by (left; reflexivity).
  split; [exact Hb|]. split; [reflexivity|]. split; [reflexivity|].
  eapply (cut_keeps_best Sample.plain_regex Sample.big_db query None None None
            _ hs a b); [reflexivity | reflexivity | reflexivity | | exact Hb].
  left. reflexivity.
Defined.

Lemma amenity_filter_passed (amenity : option string) (hs : list Hotel) (h : Hotel) :
  truthy amenity = true ->
  In h (amenity_filter amenity hs) ->
  has_amenity (toLowerCase (or_empty amenity)) h = true.
Proof.
  unfold amenity_filter. intros ->. intros H. now apply filter_In in H.
Qed.

(** X3. The handler answers only with documents of the collection that
    satisfy the filters of the request: each record of the answer is a
    document of the collection, unchanged but for [matchScore], that passes
    the location and price conditions and, when an amenity is asked for,
    holds it in its description or amenities. *)
Theorem answer_from_collection (regex_i : string -> string -> bool)
    (db : list Listing) (query location maxPrice amenity : option string)
    (body : Body) (h : Hotel) :
  search regex_i db query location maxPrice amenity = Ok200 body ->
  In h (hotels body) ->
  In (doc h) db
  /\ matches regex_i (build_filter location maxPrice) (doc h) = true
  /\ (truthy amenity = true ->
      has_amenity (toLowerCase (or_empty amenity)) (lean (doc h)) = true).
Proof.
  rewrite search_pipeline.
  destruct (working_set _ _ _ _) as [hs|] eqn:Hw; [|discriminate].
  intros H Hin. injection H as <-. cbn [hotels] in Hin.
  apply working_set_filtered in Hw.
  assert (Hdoc : exists h0, In h0 hs /\ doc h = doc h0).
  { apply pipeline_origin in Hin as [Hh | (h0 & Hh0 & ->)];
      [now exists h | now exists h0]. }
  destruct Hdoc as (h0 & Hh0 & Hd). rewrite Hd. subst hs.
  apply in_map_iff in Hh0 as (l & <- & Hl). apply filter_In in Hl as [Hl Hm].
  cbn [lean doc]. repeat split; try assumption.
  intros Ha. unfold pipeline in Hin.
  apply slice20_incl, (amenity_filter_passed _ _ _ Ha) in Hin.
  unfold has_amenity in *. rewrite Hd in Hin. exact Hin.
Qed.

Lemma answer_from_collection_witness :
  let h := score_hotel "spa weekend" (lean Sample.city_hotel) in
  In (doc h) Sample.db
  /\ matches Sample.plain_regex (build_filter (Some "mumbai") (Some "6000")) (doc h)
     = true
  /\ (truthy (Some "GYM") = true ->
      has_amenity (toLowerCase (or_empty (Some "GYM"))) (lean (doc h)) = true).
Proof.
  intros h.
  eapply (answer_from_collection Sample.plain_regex Sample.db (Some "Spa weekend")
            (Some "mumbai") (Some "6000") (Some "GYM") _ h); [reflexivity|].
  left. reflexivity.
Defined.

(** X4. With a non-empty query, every record of the answer carries a
    [matchScore], the capped score of its document for the lower-cased
    query, keywords or not. *)
Theorem query_scores_all (regex_i : string -> string -> bool)
    (db : list Listing) (query location maxPrice amenity : option string)
    (body : Body) (h : Hotel) :
  search regex_i db query location maxPrice amenity = Ok200 body ->
  truthy query = true ->
  In h (hotels body) ->
  matchScore h
  = Some (Z.min (raw_score (toLowerCase (or_empty query)) (doc h)) 100).
Proof.
  rewrite search_pipeline.
  destruct (working_set _ _ _ _) as [hs|]; [|discriminate].
  intros H Hq Hin. injection H as <-. cbn [hotels] in Hin.
  unfold pipeline in Hin. apply slice20_incl, amenity_filter_incl in Hin.
  destruct hs as [|h0 hs].
  - rewrite rank_skipped in Hin by now right. contradiction.
  - rewrite rank_scored in Hin by (assumption || discriminate).
    eapply Permutation_in in Hin; [|symmetry; apply Array_sort_perm].
    apply in_map_iff in Hin as (h1 & <- & _). reflexivity.
Qed.

Lemma query_scores_all_witness :
  let h := mkHotel Sample.hill_cottage (Some 0) in
  exists body,
    search Sample.plain_regex Sample.db (Some "   ") None None None = Ok200 body
    /\ In h (hotels body)
    /\ matchScore h
       = Some (Z.min (raw_score (toLowerCase "   ") (doc h)) 100).
Proof.
  intros h. eexists. split; [reflexivity|].
  assert (Hin : In h (pipeline (Some "   ") None (map lean Sample.db)))
    by (right; left; reflexivity).
  split; [exact Hin|].
  eapply (query_scores_all Sample.plain_regex Sample.db (Some "   ")
            None None None _ h); [reflexivity | reflexivity | exact Hin].
Defined.

(** X5. A record without a location, with an empty one, or with one that
    starts with a comma earns the 30 points of the location bonus for every
    query: its first segment is the empty string, which every query
    contains. *)
Theorem location_missing_bonus (queryLower : string) (hotel : Listing) (score : Z) :
  location hotel = None
  \/ location hotel = Some ""
  \/ (exists rest, location hotel = Some (String "," rest)) ->
  location_bonus queryLower hotel score = score + 30.
Proof.
  intros H. unfold location_bonus.
  assert (Hhead : location_head hotel = "").
  { rewrite location_head_eq.
    destruct H as [-> | [-> | [rest ->]]]; reflexivity. }
  rewrite Hhead, includes_unfold. now destruct queryLower.
Qed.

Lemma location_missing_bonus_witness :
  location_bonus "quiet stay in manali" Sample.beach_resort 0 = 0
  /\ location_bonus "quiet stay in manali"
       (mkListing "64abc7" (Some "Cabin") None None 900 None None None)
       0 = 0 + 30.
Proof.
  split; [reflexivity|].
  apply (location_missing_bonus "quiet stay in manali"). left. reflexivity.
Defined.

(** X6. The price rules add at most 30 points: "budget" asks for a price
    below 3000 and "luxury" for one above 4000, so the two never apply to
    the same record. *)
Theorem price_bonus_at_most_30 (queryLower : string) (hotel : Listing) (score : Z) :
  score <= price_bonus queryLower hotel score <= score + 30
  /\ (includes queryLower "budget" && Qltb (price hotel) 3000
      && (includes queryLower "luxury" && Qltb 4000 (price hotel)) = false).
Proof.
  assert (Hex : Qltb (price hotel) 3000 && Qltb 4000 (price hotel) = false).
  { destruct (Qltb (price hotel) 3000) eqn:H1;
      destruct (Qltb 4000 (price hotel)) eqn:H2; try reflexivity.
    apply Qltb_lt in H1, H2. exfalso.
    apply (Qlt_irrefl 4000). eapply Qlt_trans; [exact H2|].
    eapply Qlt_trans; [exact H1|]. reflexivity. }
  unfold price_bonus.
  destruct (includes queryLower "budget"), (includes queryLower "luxury"),
    (includes queryLower "mid"), (Qltb (price hotel) 3000),
    (Qltb 4000 (price hotel)), (Qleb 2500 (price hotel)),
    (Qleb (price hotel) 4500); cbn in *; try discriminate; split;
    (lia || reflexivity).
Qed.

(** ** Requests that differ in case *)

Lemma toLowerCase_empty (s : string) : toLowerCase s = "" -> s = "".
Proof. destruct s; [reflexivity | discriminate]. Qed.

Lemma truthy_lower (a b : string) :
  toLowerCase a = toLowerCase b -> truthy (Some a) = truthy (Some b).
Proof.
  destruct a, b; try reflexivity; discriminate.
Qed.

(** X7. The query and the amenity are read without regard to case: two
    requests whose queries and amenities differ only in the case of their
    letters get the same answer. *)
Theorem search_ignores_case (regex_i : string -> string -> bool)
    (db : list Listing) (location maxPrice : option string)
    (query1 query2 amenity1 amenity2 : string) :
  toLowerCase query1 = toLowerCase query2 ->
  toLowerCase amenity1 = toLowerCase amenity2 ->
  search regex_i db (Some query1) location maxPrice (Some amenity1)
  = search regex_i db (Some query2) location maxPrice (Some amenity2).
Proof.
  intros Hq Ha. rewrite !search_pipeline.
  destruct (working_set _ _ _ _) as [hs|]; [|reflexivity].
  assert (Hp : pipeline (Some query1) (Some amenity1) hs
               = pipeline (Some query2) (Some amenity2) hs).
  { unfold pipeline, rank, amenity_filter. cbn [or_empty].
    now rewrite (truthy_lower _ _ Hq), (truthy_lower _ _ Ha), Hq, Ha. }
  now rewrite Hp.
Qed.

Lemma search_ignores_case_witness :
  search Sample.plain_regex Sample.db (Some "LUXURY Gym") None None (Some "SPA")
  = search Sample.plain_regex Sample.db (Some "luxury gym") None None (Some "spa").
Proof.
  apply (search_ignores_case Sample.plain_regex Sample.db None None
           "LUXURY Gym" "luxury gym" "SPA" "spa"); reflexivity.
Defined.

(** ** The price bound *)

Lemma filter_map_lean (f : Hotel -> bool) (l : list Listing) :
  filter f (map lean l) = map lean (filter (fun d => f (lean d)) l).
Proof.
  induction l as [|d l IH]; [reflexivity|].
  cbn [map filter]. destruct (f (lean d)); cbn [map]; now rewrite IH.
Qed.

Lemma filter_twice {A} (f g : A -> bool) (l : list A) :
  filter f (filter g l) = filter (fun x => g x && f x) l.
Proof.
  induction l as [|x l IH]; [reflexivity|].
  cbn [filter]. destruct (g x); cbn [filter andb]; [|exact IH].
  destruct (f x); now rewrite IH.
Qed.

Lemma working_set_decimal (regex_i : string -> string -> bool)
    (db : list Listing) (location : option string) (n : N) :
  (n <= 2 ^ 53)%N ->
  working_set regex_i db location (Some (decimal n))
  = Some (map lean
            (filter (fun l => location_ok regex_i (build_filter location None) l
                              && Qleb (price l) (inject_Z (Z.of_N n))) db)).
Proof.
  intros Hn. rewrite working_set_answers, decimal_truthy. cbn [or_empty].
  rewrite parseInt_decimal by exact Hn. do 2 f_equal. apply filter_ext. intros l.
  unfold matches. rewrite location_ok_price. f_equal.
  unfold price_ok, build_filter. rewrite decimal_truthy. cbn [flt_price or_empty].
  now rewrite parseInt_decimal.
Qed.

(** X8. Lowering [maxPrice] only removes records: for integer bounds
    [n <= m] not above 2^53, which [parseInt] reads exactly, the working set
    for [n] is the working set for [m], in the same order, without the
    records priced above [n]. *)
Theorem lower_bound_restricts (regex_i : string -> string -> bool)
    (db : list Listing) (location : option string) (n m : N) :
  (n <= m)%N ->
  (m <= 2 ^ 53)%N ->
  exists hs_n hs_m,
    working_set regex_i db location (Some (decimal n)) = Some hs_n
    /\ working_set regex_i db location (Some (decimal m)) = Some hs_m
    /\ hs_n = filter (fun h => Qleb (price (doc h)) (inject_Z (Z.of_N n))) hs_m.
Proof.
  intros Hnm Hm. rewrite !working_set_decimal by lia. do 2 eexists.
  split; [reflexivity|]. split; [reflexivity|].
  rewrite filter_map_lean, filter_twice. f_equal. apply filter_ext.
  intros l. cbn [lean doc].
  destruct (location_ok _ _ l); cbn [andb]; [|reflexivity].
  destruct (Qleb (price l) (inject_Z (Z.of_N n))) eqn:Hn;
    [|now rewrite andb_false_r].
  rewrite andb_true_r. symmetry. apply Qleb_le. apply Qleb_le in Hn.
  eapply Qle_trans; [exact Hn|]. rewrite <- Zle_Qle. lia.
Qed.

Lemma lower_bound_restricts_witness :
  exists hs_n hs_m,
    working_set Sample.plain_regex Sample.db None (Some (decimal 3500)) = Some hs_n
    /\ working_set Sample.plain_regex Sample.db None (Some (decimal 4200)) = Some hs_m
    /\ hs_n = filter (fun h => Qleb (price (doc h)) (inject_Z (Z.of_N 3500))) hs_m.
Proof.
  apply (lower_bound_restricts Sample.plain_regex Sample.db None 3500 4200);
    now apply N.leb_le.
Defined.

(** ** A bound followed by other characters *)

Section ParseIntPrefix.

Import DecimalString.

Ltac eval_digit10 :=
  match goal with
  | |- context [digit_value 10 ?c] =>
      let v := eval vm_compute in (digit_value 10 c) in
      change (digit_value 10 c) with v
  end.

Variables (c : ascii) (rest : string).
Hypothesis not_digit : digit_value 10 c = None.
Hypothesis not_x : Ascii.eqb c "x" = false.
Hypothesis not_X : Ascii.eqb c "X" = false.

Lemma parse_digits_stop (d : Decimal.uint) (acc : JSNum) :
  parse_digits 10 (NilEmpty.string_of_uint d ++ String c rest) acc
  = parse_digits 10 (NilEmpty.string_of_uint d) acc.
Proof.
  revert acc. induction d; intros acc;
    cbn [NilEmpty.string_of_uint append parse_digits];
    [now rewrite not_digit | ..]; eval_digit10; apply IHd.
Qed.

Lemma parse_integer_zero_then :
  parse_integer (String "0" (String c rest)) = Num 0.
Proof.
  unfold parse_integer. cbn [trimStart]. change (is_space "0") with false. cbv iota.
  rewrite not_x, not_X. cbn [orb parse_digits]. eval_digit10.
  now rewrite not_digit.
Qed.

Lemma parse_integer_uint_then (d : Decimal.uint) :
  parse_integer (NilZero.string_of_uint d ++ String c rest)
  = Num (Z.of_N (N.of_uint d)).
Proof.
  unfold N.of_uint. rewrite <- parse_digits_zero.
  rewrite <- (parse_digits_stop d (Num 0)).
  destruct d as [|d|d|d|d|d|d|d|d|d|d];
    unfold NilZero.string_of_uint; cbn [NilEmpty.string_of_uint append];
    [rewrite parse_integer_zero_then; cbn [parse_digits]; now rewrite not_digit
    | destruct d; cbn [NilEmpty.string_of_uint append];
      [rewrite parse_integer_zero_then; cbn [parse_digits]; eval_digit10;
       cbn [parse_digits]; now rewrite not_digit | ..]
    | ..];
    generalize (NilEmpty.string_of_uint d ++ String c rest); intros s;
    unfold parse_integer; cbn; apply parseInt_result.
Qed.

(** [parseInt] stops at the first character that is not a digit. *)
Lemma parseInt_decimal_then (n : N) :
  parseInt (decimal n ++ String c rest) = parseInt (decimal n).
Proof.
  unfold parseInt, decimal.
  now rewrite parse_integer_uint_then, parse_integer_uint.
Qed.

End ParseIntPrefix.

(** X9. What follows the leading integer of [maxPrice] is ignored: a
    decimal number followed by any character that is neither a digit nor
    [x] (a fraction, an exponent, a unit, a space) is read like the integer
    alone and the request answered alike, so "2500.99" and "1e3" filter
    like "2500" and "1"; up to 2^53 the bound is that integer exactly. *)
Theorem maxPrice_tail_ignored (regex_i : string -> string -> bool)
    (db : list Listing) (query location amenity : option string)
    (n : N) (c : ascii) (rest : string) :
  digit_value 10 c = None ->
  Ascii.eqb c "x" = false ->
  Ascii.eqb c "X" = false ->
  parseInt (decimal n ++ String c rest) = parseInt (decimal n)
  /\ search regex_i db query location (Some (decimal n ++ String c rest)) amenity
     = search regex_i db query location (Some (decimal n)) amenity
  /\ ((n <= 2 ^ 53)%N ->
      parseInt (decimal n ++ String c rest) = Num (Z.of_N n)).
Proof.
  intros Hd Hx HX.
  pose proof (parseInt_decimal_then c rest Hd Hx HX n) as Hp.
  split; [exact Hp|]. split; [|intros Hn; rewrite Hp; now apply parseInt_decimal].
  assert (Ht : truthy (Some (decimal n ++ String c rest)) = true).
  { pose proof (decimal_truthy n) as H.
    destruct (decimal n); [discriminate | reflexivity]. }
  assert (Hf : forall l,
             matches regex_i (build_filter location (Some (decimal n ++ String c rest))) l
             = matches regex_i (build_filter location (Some (decimal n))) l).
  { intros l. unfold matches. rewrite !(location_ok_price _ _ (Some _)). f_equal.
    unfold price_ok, build_filter. rewrite Ht, decimal_truthy.
    cbn [flt_price or_empty]. now rewrite Hp. }
  rewrite !search_pipeline, !working_set_answers, Ht, decimal_truthy.
  cbn [or_empty]. rewrite Hp.
  now rewrite (filter_ext _ _ Hf).
Qed.

Lemma maxPrice_tail_ignored_witness :
  parseInt (decimal 1 ++ String "e" "3") = parseInt (decimal 1)
  /\ search Sample.plain_regex Sample.db (Some "budget") None
       (Some (decimal 1 ++ String "e" "3")) None
     = search Sample.plain_regex Sample.db (Some "budget") None
         (Some (decimal 1)) None
  /\ ((1 <= 2 ^ 53)%N ->
      parseInt (decimal 1 ++ String "e" "3") = Num (Z.of_N 1)).
Proof.
  apply (maxPrice_tail_ignored Sample.plain_regex Sample.db (Some "budget")
           None None 1 "e" "3"); reflexivity.
Defined.

(** * The AI routes *)

Section Forwarding.

Variable service : list AI.Call -> AI.Call -> AI.Fetched.

Lemma forward_forwards (name : string) (required : option string)
    (missing failure path : string) (fields : list (string * option string))
    (w : AI.World) :
  truthy required = true ->
  In (name, required) fields ->
  forwards service name required missing failure path w
    (AI.forward service failure (AI.mkCall path fields) w).
Proof.
  intros Hreq Hin. unfold forwards, AI.forward.
  set (call := AI.mkCall path fields).
  destruct (service (AI.calls w) call) as [m | ok st text [d | m]] eqn:Hs;
    cbn [AI.fetched]; try destruct ok; cbn [negb fst snd AI.called AI.store AI.calls];
    (split; [reflexivity|]); (split; [congruence|]); intros _;
    exists call; (split; [reflexivity|]); (split; [exact Hin|]);
    (split; [reflexivity|]); split;
    try (intros d0; split;
         [intros H; try discriminate; injection H as <-; now exists st, text
         | intros (st0 & text0 & H); congruence]);
    try (intros d0; split; [discriminate | intros (st0 & text0 & H); discriminate]);
    intros st0 e details H; try discriminate; injection H as <- <- _; now split.
Qed.

(** X10. The five forwarding routes answer 400 and ask the AI service
    nothing when their required field is missing or empty; otherwise they
    make exactly one request, to their own path and carrying that field,
    answer with the service's data exactly when the service answered ok
    with data, and with 500 otherwise; they never write to the
    collection. *)
Theorem forwarding_routes (w : AI.World)
    (query source destination preferences thread_id user_responses
       user_id force_tool description : option string) :
  forwards service "query" query "Query is required"
    "Failed to generate travel itinerary" "/agent/travel-planner" w
    (AI.travel_plan service query source destination preferences w)
  /\ forwards service "query" query "Query is required"
       "Failed to start solo trip planning" "/agent/solo-trip/start" w
       (AI.solo_start service query thread_id w)
  /\ forwards service "thread_id" thread_id "Thread ID is required"
       "Failed to resume solo trip planning" "/agent/solo-trip/resume" w
       (AI.solo_resume service thread_id user_responses w)
  /\ forwards service "query" query "Query is required"
       "Failed to process chat request" "/agent/smart-chat" w
       (AI.smart_chat service query thread_id user_id force_tool w)
  /\ forwards service "description" description "Description is required"
       "Failed to extract amenities" "/tools/extract-amenities" w
       (AI.test_extract service description w).
Proof.
  assert (Hno : forall name required missing failure path,
             truthy required = false ->
             forwards service name required missing failure path w
               (AI.Refused 400 missing None, w)).
  { intros name required missing failure path Hr. unfold forwards.
    split; [reflexivity|]. split; [reflexivity|]. congruence. }
  unfold AI.travel_plan, AI.solo_start, AI.solo_resume, AI.smart_chat,
    AI.test_extract.
  destruct (truthy query) eqn:Hq, (truthy thread_id) eqn:Ht,
    (truthy description) eqn:Hd; cbn [negb];
    (split; [|split; [|split; [|split]]]);
    try (apply Hno; assumption);
    apply forward_forwards; try assumption; cbn; tauto.
Qed.

(** X11. The chat route never forwards a missing or empty [thread_id] or
    [user_id]: each is sent as given when it is non-empty and as "default"
    otherwise. *)
Theorem smart_chat_defaults (w : AI.World)
    (query thread_id user_id force_tool : option string) :
  truthy query = true ->
  exists t u,
    AI.calls (snd (AI.smart_chat service query thread_id user_id force_tool w))
    = (AI.calls w
       ++ [AI.mkCall "/agent/smart-chat"
             [("query", query); ("thread_id", Some t);
              ("user_id", Some u); ("force_tool", force_tool)]])%list
    /\ t <> "" /\ u <> ""
    /\ (if truthy thread_id then thread_id = Some t else t = "default")
    /\ (if truthy user_id then user_id = Some u else u = "default").
Proof.
  intros Hq. unfold AI.smart_chat. rewrite Hq. cbn [negb].
  assert (Hd : forall x, exists v,
             AI.or_default x = Some v /\ v <> ""
             /\ (if truthy x then x = Some v else v = "default")).
  { intros [[|a x]|]; cbn; eexists; repeat split; discriminate. }
  destruct (Hd thread_id) as (t & -> & Ht & Ht').
  destruct (Hd user_id) as (u & -> & Hu & Hu').
  exists t, u. split; [|tauto].
  unfold AI.forward. now destruct (AI.fetched _ _).
Qed.

End Forwarding.

(** ** The collection under [save] *)

Section Collection.

Lemma findById_id (id : string) (db : list Listing) (l : Listing) :
  AI.findById id db = Some l -> In l db /\ _id l = id.
Proof.
  unfold AI.findById. intros H. apply find_some in H as [Hin Heq].
  split; [exact Hin | now apply String.eqb_eq].
Qed.

Lemma findById_None (id : string) (db : list Listing) :
  AI.findById id db = None <-> ~ In id (map _id db).
Proof.
  unfold AI.findById. induction db as [|d db IH]; cbn [List.find map In].
  - tauto.
  - destruct (String.eqb_spec (_id d) id) as [He|Hne].
    + split; [intros H; discriminate H | intros H; exfalso; apply H; now left].
    + rewrite IH. tauto.
Qed.

(** Saving keeps the documents, their order and their other fields. *)
Lemma save_kept_fields (l : Listing) (db : list Listing) :
  map kept_fields (AI.save l db) = map kept_fields db.
Proof.
  unfold AI.save. rewrite map_map. apply map_ext. intros d.
  now destruct (String.eqb (_id d) (_id l)).
Qed.

Lemma kept_fields_id (db db' : list Listing) :
  map kept_fields db' = map kept_fields db -> map _id db' = map _id db.
Proof.
  intros H.
  apply (f_equal (map (fun t : string * option string * option string * Q
                                * option string * option string =>
                         fst (fst (fst (fst (fst t))))))) in H.
  rewrite !map_map in H. exact H.
Qed.

Lemma save_other (l d : Listing) (db : list Listing) :
  In d db -> _id d <> _id l -> In d (AI.save l db).
Proof.
  intros Hin Hne. unfold AI.save. apply in_map_iff. exists d.
  split; [|exact Hin].
  destruct (String.eqb_spec (_id d) (_id l)); [contradiction | reflexivity].
Qed.

Lemma findById_save (id : string) (l : Listing) (db : list Listing) :
  AI.findById id (AI.save l db)
  = if String.eqb (_id l) id
    then option_map (AI.stored l) (AI.findById id db)
    else AI.findById id db.
Proof.
  unfold AI.findById, AI.save.
  induction db as [|d db IH]; cbn [map List.find option_map].
  - now destruct (String.eqb (_id l) id).
  - destruct (String.eqb_spec (_id d) (_id l)) as [Hdl|Hdl];
      destruct (String.eqb_spec (_id l) id) as [Hl|Hl];
      destruct (String.eqb_spec (_id d) id) as [Hd|Hd];
      cbn [AI.stored _id]; try congruence;
      try (rewrite (proj2 (String.eqb_eq _ _) Hd));
      try (rewrite (proj2 (String.eqb_neq _ _) Hd));
      try reflexivity; exact IH.
Qed.

End Collection.

(** ** Extracting the amenities of one listing *)

Section ExtractOne.

Variable service : list AI.Call -> AI.Call -> AI.Fetched.
Variable id_error : string -> option string.
Variable save_error : Listing -> option string.

Let extract := AI.extract_amenities service id_error save_error.

(** Every path through the handler, one goal each. *)
Ltac extract_paths id w :=
  unfold extract, AI.extract_amenities in *; cbv zeta in *;
  destruct (id_error id) as [?m|];
  [| destruct (AI.findById id (AI.store w)) as [listing|] eqn:Hfind;
     [ destruct (truthy (description listing)) eqn:Hdesc; cbn [negb] in *;
       [ destruct (service (AI.calls w) (AI.extract_call listing))
           as [?m | ok0 st0 text0 [data | ?m]];
         cbn [AI.fetched] in *; try destruct ok0; cbn [negb] in *;
         try (destruct (save_error (AI.set_amenities listing (AI.amenities_field data)))
                as [?m|];
              [| destruct (AI.amenities_field data) as [ams|] eqn:Hams])
       | ]
     | ] ].

(** X12. When the route answers with success, the amenities it reports are
    the ones the service returned and the ones now stored under that id, in
    a document that kept its title, description, price, location and
    country; [count] is their number, and one request was made, carrying
    the description of that listing. *)
Theorem extract_amenities_stores (id : string) (w w' : AI.World) (r : AI.Extracted) :
  extract id w = (AI.Sent r, w') ->
  AI.e_count r = List.length (AI.e_amenities r)
  /\ AI.listing_id r = id
  /\ AI.e_success r = true
  /\ exists listing,
       AI.findById id (AI.store w) = Some listing
       /\ truthy (description listing) = true
       /\ AI.calls w' = (AI.calls w ++ [AI.extract_call listing])%list
       /\ (exists st text data,
             service (AI.calls w) (AI.extract_call listing)
             = AI.Answered true st text (AI.Data data)
             /\ AI.amenities_field data = Some (AI.e_amenities r))
       /\ exists d,
            AI.findById id (AI.store w') = Some d
            /\ amenities d = Some (AI.e_amenities r)
            /\ kept_fields d = kept_fields listing.
Proof.
  intros H.
  unfold extract, AI.extract_amenities in H; cbv zeta in H.
  destruct (id_error id) as [m|]; [discriminate|].
  destruct (AI.findById id (AI.store w)) as [listing|] eqn:Hfind; [|discriminate].
  destruct (truthy (description listing)) eqn:Hdesc; cbn [negb] in H;
    [|discriminate].
  destruct (service (AI.calls w) (AI.extract_call listing))
    as [m | ok st text [data | m]] eqn:Hs;
    cbn [AI.fetched] in H; try destruct ok; cbn [negb] in H; try discriminate.
  destruct (save_error _) as [m|]; [discriminate|].
  destruct (AI.amenities_field data) as [ams|] eqn:Hams; [|discriminate].
  injection H as <- <-.
  cbn [AI.e_count AI.e_amenities AI.listing_id AI.e_success AI.saved
       AI.called AI.store AI.calls].
  repeat split. exists listing.
  split; [reflexivity|]. split; [exact Hdesc|]. split; [reflexivity|].
  split; [now exists st, text, data|].
  destruct (findById_id _ _ _ Hfind) as [_ Hid].
  rewrite findById_save. cbn [AI.set_amenities _id].
  rewrite Hid, String.eqb_refl, Hfind. cbn [option_map].
  eexists. split; [reflexivity|]. split; reflexivity.
Qed.

(** X13. Whatever the route answers, the collection holds the same
    documents in the same order, each with the id, title, description,
    price, location and country it had; a document of another id is
    exactly as it was; and at most one request is made. *)
Theorem extract_amenities_frame (id : string) (w : AI.World) :
  let w' := snd (extract id w) in
  map kept_fields (AI.store w') = map kept_fields (AI.store w)
  /\ (forall d, In d (AI.store w) -> _id d <> id -> In d (AI.store w'))
  /\ (AI.calls w' = AI.calls w
      \/ exists call, AI.calls w' = (AI.calls w ++ [call])%list).
Proof.
  extract_paths id w; cbn [snd AI.saved AI.called AI.store AI.calls];
    try rewrite save_kept_fields;
    (split; [reflexivity|]); split; try (intros d Hd _; exact Hd);
    try (left; reflexivity); try (right; eexists; reflexivity);
    intros d Hd Hne; apply save_other; try assumption;
    cbn [AI.set_amenities _id];
    destruct (findById_id _ _ _ Hfind) as [_ ->]; exact Hne.
Qed.

(** X14. An answer 404 or 400 means nothing was asked of the AI service
    and nothing written: 404 when no document has the id, 400 when the
    document has no description. *)
Theorem extract_amenities_refusals (id : string) (w w' : AI.World)
    (st : N) (e : string) (details : option string) :
  extract id w = (AI.Refused st e details, w') ->
  st <> 500%N ->
  w' = w
  /\ ((st = 404%N /\ AI.findById id (AI.store w) = None)
      \/ (st = 400%N
          /\ exists listing,
               AI.findById id (AI.store w) = Some listing
               /\ truthy (description listing) = false)).
Proof.
  intros H Hst. extract_paths id w;
    try discriminate; injection H as <- <- <- <-; try contradiction.
  - split; [reflexivity|]. right. split; [reflexivity|]. now exists listing.
  - split; [reflexivity|]. left. now split.
Qed.

Lemma filter_all {A} (f : A -> bool) (l : list A) :
  (forall x, f x = true) -> filter f l = l.
Proof.
  intros H. induction l as [|x l IH]; [reflexivity|].
  cbn [filter]. now rewrite H, IH.
Qed.

Lemma filter_length_le {A} (f : A -> bool) (l : list A) :
  (List.length (filter f l) <= List.length l)%nat.
Proof.
  induction l as [|x l IH]; [reflexivity|].
  cbn [filter]. destruct (f x); simpl; lia.
Qed.

Lemma has_own_amenity (d : Listing) (ams : list string) (a : string) :
  amenities d = Some ams -> In a ams ->
  has_amenity (toLowerCase a) (lean d) = true.
Proof.
  intros Hd Ha. unfold has_amenity. cbn [lean doc]. rewrite Hd.
  apply orb_true_iff. right. apply existsb_exists. exists a.
  split; [exact Ha|]. apply includes_spec, Substring_refl.
Qed.

(** A search by amenity alone, in a collection of at most 20 documents,
    answers with every document that holds the amenity. *)
Lemma search_by_amenity (regex_i : string -> string -> bool)
    (db : list Listing) (a : string) (d : Listing) :
  a <> "" ->
  (List.length db <= 20)%nat ->
  In d db ->
  has_amenity (toLowerCase a) (lean d) = true ->
  exists body,
    search regex_i db None None None (Some a) = Ok200 body
    /\ In (lean d) (hotels body).
Proof.
  intros Ha Hlen Hin Hhas. eexists. split.
  - rewrite search_pipeline, working_set_answers. cbn [truthy]. reflexivity.
  - cbn [hotels]. unfold pipeline, slice20.
    rewrite rank_skipped by now left.
    rewrite filter_all by reflexivity.
    assert (Ht : truthy (Some a) = true) by (destruct a; [contradiction | reflexivity]).
    unfold amenity_filter. rewrite Ht. cbn [or_empty].
    rewrite firstn_all2.
    + apply filter_In. split; [now apply in_map | exact Hhas].
    + etransitivity; [apply filter_length_le|]. now rewrite length_map.
Qed.

(** X15. Extraction then search: after a successful extraction, a search
    for any of the extracted tags, in a collection of at most 20 listings,
    answers with that listing. *)
Theorem extracted_tag_is_found (regex_i : string -> string -> bool)
    (id : string) (w w' : AI.World) (r : AI.Extracted) (a : string) :
  extract id w = (AI.Sent r, w') ->
  In a (AI.e_amenities r) ->
  a <> "" ->
  (List.length (AI.store w) <= 20)%nat ->
  exists d body,
    AI.findById id (AI.store w') = Some d
    /\ search regex_i (AI.store w') None None None (Some a) = Ok200 body
    /\ In (lean d) (hotels body).
Proof.
  intros H Hin Ha Hlen.
  assert (Hstrip : map kept_fields (AI.store w') = map kept_fields (AI.store w)).
  { pose proof (extract_amenities_frame id w) as Hf. cbv zeta in Hf.
    rewrite H in Hf. apply Hf. }
  assert (Hfound : exists d,
             AI.findById id (AI.store w') = Some d
             /\ amenities d = Some (AI.e_amenities r)).
  { unfold extract, AI.extract_amenities in H; cbv zeta in H.
    destruct (id_error id) as [m|]; [discriminate|].
    destruct (AI.findById id (AI.store w)) as [listing|] eqn:Hfind; [|discriminate].
    destruct (truthy (description listing)); cbn [negb] in H; [|discriminate].
    destruct (service (AI.calls w) (AI.extract_call listing))
      as [m | ok st text [data | m]];
      cbn [AI.fetched] in H; try destruct ok; cbn [negb] in H; try discriminate.
    destruct (save_error _) as [m|]; [discriminate|].
    destruct (AI.amenities_field data) as [ams|]; [|discriminate].
    injection H as <- <-.
    cbn [AI.e_amenities AI.saved AI.called AI.store AI.calls].
    destruct (findById_id _ _ _ Hfind) as [_ Hid].
    rewrite findById_save. cbn [AI.set_amenities _id].
    rewrite Hid, String.eqb_refl, Hfind. cbn [option_map].
    eexists. split; reflexivity. }
  destruct Hfound as (d & Hd & Hams).
  destruct (search_by_amenity regex_i (AI.store w') a d) as (body & Hs & Hb);
    try assumption.
  - apply (f_equal (@List.length _)) in Hstrip. rewrite !length_map in Hstrip.
    now rewrite Hstrip.
  - now apply findById_id in Hd.
  - now apply has_own_amenity with (ams := AI.e_amenities r).
  - now exists d, body.
Qed.

End ExtractOne.

(** ** Extracting the amenities of every listing that lacks them *)

Section Bulk.

Local Open Scope list_scope.
Local Open Scope nat_scope.

Variable service : list AI.Call -> AI.Call -> AI.Fetched.
Variable save_error : Listing -> option string.

Let step := AI.bulk_step service save_error.
Let bulk := AI.bulk_extract service save_error.

Lemma count_status_app (s : string) (a b : list AI.Result) :
  count_status s (a ++ b) = count_status s a + count_status s b.
Proof. unfold count_status. now rewrite filter_app, length_app. Qed.

(** Every result has one of the three statuses. *)
Lemma count_status_total (rs : list AI.Result) :
  count_status "success" rs + count_status "failed" rs
  + count_status "skipped" rs = List.length rs.
Proof.
  induction rs as [|r rs IH]; [reflexivity|].
  change (r :: rs) with ([r] ++ rs). rewrite !count_status_app, length_app.
  rewrite <- IH. destruct r; cbn; lia.
Qed.

(** One turn of the loop: one result, about that listing; at most one
    request and one write. *)
Lemma bulk_step_shape (st : AI.Loop) (l : Listing) :
  exists r,
    AI.results (step st l) = AI.results st ++ [r]
    /\ AI.result_id r = _id l
    /\ (AI.status r = "skipped"%string <-> described l = false)
    /\ AI.success (step st l) = AI.success st + count_status "success" [r]
    /\ AI.failed (step st l) = AI.failed st + count_status "failed" [r]
    /\ AI.calls (AI.world (step st l))
       = AI.calls (AI.world st) ++ (if described l then [AI.extract_call l] else [])
    /\ (AI.store (AI.world (step st l)) = AI.store (AI.world st)
        \/ exists ams,
             AI.store (AI.world (step st l))
             = AI.save (AI.set_amenities l ams) (AI.store (AI.world st)))
    /\ (forall id t n la,
          r = AI.Succeeded id t n la ->
          n = List.length la
          /\ AI.store (AI.world (step st l))
             = AI.save (AI.set_amenities l (Some la)) (AI.store (AI.world st))).
Proof.
  unfold step, AI.bulk_step, described. cbv zeta.
  destruct (truthy (description l)); cbn [negb].
  - destruct (service (AI.calls (AI.world st)) (AI.extract_call l))
      as [m | ok status text [data | m]];
      cbn [AI.fetched]; try destruct ok; cbn [negb];
      try (destruct (save_error _) as [m'|];
           [| destruct (AI.amenities_field data) as [ams|] eqn:Hams]);
      eexists;
      cbn [AI.results AI.success AI.failed AI.world AI.called AI.saved
           AI.store AI.calls];
      (split; [reflexivity|]); (split; [reflexivity|]);
      (split; [split; discriminate|]);
      (split; [cbn; lia|]); (split; [cbn; lia|]); (split; [reflexivity|]);
      split;
      try (left; reflexivity); try (right; eexists; reflexivity);
      try (intros id t n la H; discriminate H).
    intros id t n la H. injection H as _ _ <- <-. now split.
  - eexists.
    cbn [AI.results AI.success AI.failed AI.world].
    split; [reflexivity|]. split; [reflexivity|].
    split; [split; reflexivity|].
    split; [cbn; lia|]. split; [cbn; lia|].
    split; [now rewrite app_nil_r|]. split; [now left|].
    intros id t n la H. discriminate H.
Qed.

(** The whole loop. *)
Lemma bulk_fold (ls : list Listing) :
  forall st,
  exists rs,
    AI.results (fold_left step ls st) = AI.results st ++ rs
    /\ map AI.result_id rs = map _id ls
    /\ Forall2 (fun d r => AI.status r = "skipped"%string <-> described d = false)
         ls rs
    /\ AI.success (fold_left step ls st)
       = AI.success st + count_status "success" rs
    /\ AI.failed (fold_left step ls st)
       = AI.failed st + count_status "failed" rs
    /\ AI.calls (AI.world (fold_left step ls st))
       = AI.calls (AI.world st) ++ map AI.extract_call (filter described ls)
    /\ map kept_fields (AI.store (AI.world (fold_left step ls st)))
       = map kept_fields (AI.store (AI.world st)).
Proof.
  induction ls as [|l ls IH]; intros st.
  - exists []. cbn [fold_left map filter]. rewrite !app_nil_r.
    repeat split; try constructor; cbn; lia.
  - cbn [fold_left].
    destruct (bulk_step_shape st l)
      as (r & Hr & Hid & Hsk & Hs & Hf & Hc & Hst & _).
    destruct (IH (step st l)) as (rs & Hrs & Hids & Hall & Hs' & Hf' & Hc' & Hst').
    exists (r :: rs).
    split; [now rewrite Hrs, Hr, <- app_assoc|].
    split; [cbn [map]; now rewrite Hid, Hids|].
    split; [now constructor|].
    change (r :: rs) with ([r] ++ rs). rewrite !count_status_app.
    split; [rewrite Hs', Hs; lia|]. split; [rewrite Hf', Hf; lia|].
    split.
    + rewrite Hc', Hc. cbn [filter]. destruct (described l); cbn [map];
        now rewrite <- app_assoc.
    + rewrite Hst'. destruct Hst as [-> | [ams ->]]; [reflexivity|].
      apply save_kept_fields.
Qed.

(** X16. The counts of the bulk answer agree with its results:
    [processed] is their number, [success] and [failed] are the numbers of
    results of those statuses, and the three statuses add up to
    [processed]. *)
Theorem bulk_counts (w w' : AI.World) (p s f : nat) (rs : list AI.Result) :
  bulk w = (AI.Processed p s f rs, w') ->
  0 < p
  /\ p = List.length rs
  /\ s = count_status "success" rs
  /\ f = count_status "failed" rs
  /\ s + f + count_status "skipped" rs = p.
Proof.
  unfold bulk, AI.bulk_extract. cbv zeta.
  set (ls := filter AI.lacks_amenities (AI.store w)).
  destruct (Nat.eqb_spec (List.length ls) 0) as [|Hne]; [discriminate|].
  destruct (bulk_fold ls (AI.mkLoop [] 0 0 w))
    as (rs' & Hrs & Hids & _ & Hs & Hf & _).
  fold step. intros H. injection H as <- <- <- <- _.
  cbn [AI.results AI.success AI.failed app] in *. rewrite Hrs, Hs, Hf.
  assert (Hlen : List.length ls = List.length rs').
  { apply (f_equal (@List.length _)) in Hids. now rewrite !length_map in Hids. }
  pose proof (count_status_total rs'). repeat split; lia.
Qed.

(** X17. The bulk route reports on each listing that lacks amenities, once
    and in collection order; a result is "skipped" exactly when its listing
    has no description. *)
Theorem bulk_covers_selection (w w' : AI.World) (p s f : nat)
    (rs : list AI.Result) :
  bulk w = (AI.Processed p s f rs, w') ->
  let selected := filter AI.lacks_amenities (AI.store w) in
  map AI.result_id rs = map _id selected
  /\ Forall2 (fun d r => AI.status r = "skipped"%string <-> described d = false)
       selected rs.
Proof.
  unfold bulk, AI.bulk_extract. cbv zeta.
  set (ls := filter AI.lacks_amenities (AI.store w)).
  destruct (List.length ls =? 0); [discriminate|].
  destruct (bulk_fold ls (AI.mkLoop [] 0 0 w)) as (rs' & Hrs & Hids & Hall & _).
  fold step. intros H. injection H as _ _ _ <- _.
  cbn [AI.results app] in Hrs. rewrite Hrs. now split.
Qed.

(** X18. The bulk route asks the AI service once for each listing that
    lacks amenities and has a description, in collection order, sending
    that description, and for no other listing. *)
Theorem bulk_requests (w : AI.World) :
  AI.calls (snd (bulk w))
  = AI.calls w
    ++ map AI.extract_call
         (filter described (filter AI.lacks_amenities (AI.store w))).
Proof.
  unfold bulk, AI.bulk_extract. cbv zeta.
  set (ls := filter AI.lacks_amenities (AI.store w)).
  destruct (bulk_fold ls (AI.mkLoop [] 0 0 w)) as (rs' & _ & _ & _ & _ & _ & Hc & _).
  fold step. destruct ls as [|l ls'] eqn:Hls.
  - cbn. now rewrite app_nil_r.
  - cbn [List.length Nat.eqb snd]. exact Hc.
Qed.


End Bulk.

Section BulkStore.

Local Open Scope list_scope.
Local Open Scope nat_scope.

Variable service : list AI.Call -> AI.Call -> AI.Fetched.
Variable save_error : Listing -> option string.

Let step := AI.bulk_step service save_error.
Let bulk := AI.bulk_extract service save_error.

Lemma filter_none {A} (f : A -> bool) (l : list A) :
  List.length (filter f l) = 0 <-> forall x, In x l -> f x = false.
Proof.
  induction l as [|x l IH]; cbn [filter In].
  - split; [intros _ x [] | reflexivity].
  - destruct (f x) eqn:Hx; cbn [List.length].
    + split; [discriminate|]. intros H. specialize (H x (or_introl eq_refl)).
      congruence.
    + rewrite IH. split.
      * intros H y [<-|Hy]; [exact Hx | now apply H].
      * intros H y Hy. apply H. now right.
Qed.

(** X20. The bulk route has nothing to do exactly when every listing has a
    non-empty list of amenities; it then asks nothing of the AI service and
    writes nothing. *)
Theorem bulk_nothing_to_do (w : AI.World) :
  (forall d, In d (AI.store w) -> AI.lacks_amenities d = false)
  <-> bulk w = (AI.NothingToDo "All listings already have amenities" 0 0 0, w).
Proof.
  unfold bulk, AI.bulk_extract. cbv zeta. rewrite <- filter_none.
  destruct (Nat.eqb_spec (List.length (filter AI.lacks_amenities (AI.store w))) 0)
    as [He|Hne].
  - split; [reflexivity | intros _; exact He].
  - split; [contradiction | discriminate].
Qed.

Lemma fold_findById_other (id : string) (ls : list Listing) :
  forall st,
    (forall l, In l ls -> _id l <> id) ->
    AI.findById id (AI.store (AI.world (fold_left step ls st)))
    = AI.findById id (AI.store (AI.world st)).
Proof.
  induction ls as [|l ls IH]; intros st Hne; [reflexivity|].
  cbn [fold_left]. rewrite IH by (intros l' Hl'; apply Hne; now right).
  destruct (bulk_step_shape service save_error st l)
    as (r & _ & _ & _ & _ & _ & _ & Hst & _).
  fold step in Hst. destruct Hst as [-> | [ams ->]]; [reflexivity|].
  rewrite findById_save. cbn [AI.set_amenities _id].
  destruct (String.eqb_spec (_id l) id) as [He|_]; [|reflexivity].
  exfalso. apply (Hne l); [now left | exact He].
Qed.

Lemma fold_keeps (d : Listing) (ls : list Listing) :
  forall st,
    (forall l, In l ls -> _id l <> _id d) ->
    In d (AI.store (AI.world st)) ->
    In d (AI.store (AI.world (fold_left step ls st))).
Proof.
  induction ls as [|l ls IH]; intros st Hne Hin; [exact Hin|].
  cbn [fold_left]. apply IH; [intros l' Hl'; apply Hne; now right|].
  destruct (bulk_step_shape service save_error st l)
    as (r & _ & _ & _ & _ & _ & _ & Hst & _).
  fold step in Hst. destruct Hst as [-> | [ams ->]]; [exact Hin|].
  apply save_other; [exact Hin|]. cbn [AI.set_amenities _id].
  intros He. apply (Hne l); [now left | now symmetry].
Qed.

Lemma NoDup_ids_inj (db : list Listing) (x y : Listing) :
  NoDup (map _id db) -> In x db -> In y db -> _id x = _id y -> x = y.
Proof.
  induction db as [|d db IH]; cbn [map In]; [contradiction|].
  intros Hnd Hx Hy He. inversion Hnd as [|? ? Hnotin Hnd']; subst.
  destruct Hx as [<-|Hx], Hy as [<-|Hy]; try reflexivity.
  - exfalso. apply Hnotin. rewrite He. now apply in_map.
  - exfalso. apply Hnotin. rewrite <- He. now apply in_map.
  - now apply IH.
Qed.

Lemma NoDup_ids_filter (f : Listing -> bool) (db : list Listing) :
  NoDup (map _id db) -> NoDup (map _id (filter f db)).
Proof.
  induction db as [|d db IH]; cbn [map filter]; [trivial|].
  intros Hnd. inversion Hnd as [|? ? Hnotin Hnd']; subst.
  destruct (f d); [|now apply IH].
  cbn [map]. constructor; [|now apply IH].
  intros Hin. apply Hnotin. apply in_map_iff in Hin as (x & Hx & Hin).
  apply filter_In in Hin as [Hin _]. rewrite <- Hx. now apply in_map.
Qed.

(** X21. With ids that are unique, the bulk route leaves every listing
    that already has amenities exactly as it was, whatever the service
    answers for the others. *)
Theorem bulk_keeps_listed (w : AI.World) (d : Listing) :
  NoDup (map _id (AI.store w)) ->
  In d (AI.store w) ->
  AI.lacks_amenities d = false ->
  In d (AI.store (snd (bulk w))).
Proof.
  intros Hnd Hin Hd. unfold bulk, AI.bulk_extract. cbv zeta.
  destruct (List.length _ =? 0); [exact Hin|].
  cbn [snd]. apply fold_keeps; [|exact Hin].
  intros l Hl He. apply filter_In in Hl as [Hl Hlacks].
  assert (l = d) by (eapply NoDup_ids_inj; eassumption).
  congruence.
Qed.

Lemma fold_success (ls : list Listing) :
  forall st rs,
    NoDup (map _id ls) ->
    (forall l, In l ls -> In (_id l) (map _id (AI.store (AI.world st)))) ->
    AI.results (fold_left step ls st) = AI.results st ++ rs ->
    forall id t n la,
      In (AI.Succeeded id t n la) rs ->
      n = List.length la
      /\ exists d,
           AI.findById id (AI.store (AI.world (fold_left step ls st))) = Some d
           /\ amenities d = Some la.
Proof.
  induction ls as [|l ls IH]; intros st rs Hnd Hids Hrs id t n la Hin.
  - cbn [fold_left] in Hrs. rewrite <- (app_nil_r (AI.results st)) in Hrs at 1.
    apply app_inv_head in Hrs. subst rs. contradiction.
  - cbn [fold_left] in *. inversion Hnd as [|? ? Hnotin Hnd']; subst.
    destruct (bulk_step_shape service save_error st l)
      as (r & Hr & Hid & _ & _ & _ & _ & Hst & Hok).
    fold step in Hr, Hst, Hok.
    destruct (bulk_fold service save_error ls (step st l)) as (rs2 & Hrs2 & _).
    fold step in Hrs2.
    assert (Hsame : map _id (AI.store (AI.world (step st l)))
                    = map _id (AI.store (AI.world st))).
    { apply kept_fields_id. destruct Hst as [-> | [ams ->]]; [reflexivity|].
      apply save_kept_fields. }
    assert (Hsplit : rs = r :: rs2).
    { rewrite Hrs2, Hr, <- app_assoc in Hrs. now apply app_inv_head in Hrs. }
    subst rs. destruct Hin as [Heq | Hin].
    + destruct (Hok _ _ _ _ Heq) as [Hn Hstore]. split; [exact Hn|].
      assert (id = _id l) by (rewrite <- Hid, Heq; reflexivity). subst id.
      rewrite fold_findById_other.
      * rewrite Hstore, findById_save. cbn [AI.set_amenities _id amenities].
        rewrite String.eqb_refl.
        destruct (AI.findById (_id l) (AI.store (AI.world st))) as [d0|] eqn:Hf.
        -- eexists. split; reflexivity.
        -- exfalso. apply findById_None in Hf. apply Hf, Hids. now left.
      * intros l' Hl' He. apply Hnotin. rewrite <- He. now apply in_map.
    + eapply (IH (step st l) rs2); [exact Hnd' | | exact Hrs2 | exact Hin].
      intros l' Hl'. rewrite Hsame. apply Hids. now right.
Qed.

(** X22. With ids that are unique, what the bulk route reports as a
    success is what the collection holds afterwards: the listing of a
    "success" result has exactly the amenities of that result, and
    [amenities_count] is their number. *)
Theorem bulk_success_stored (w w' : AI.World) (p s f : nat)
    (rs : list AI.Result) (id : string) (t : option string) (n : nat)
    (la : list string) :
  NoDup (map _id (AI.store w)) ->
  bulk w = (AI.Processed p s f rs, w') ->
  In (AI.Succeeded id t n la) rs ->
  n = List.length la
  /\ exists d, AI.findById id (AI.store w') = Some d /\ amenities d = Some la.
Proof.
  intros Hnd. unfold bulk, AI.bulk_extract. cbv zeta.
  set (ls := filter AI.lacks_amenities (AI.store w)).
  destruct (List.length ls =? 0); [discriminate|].
  fold step. intros H Hin. injection H as _ _ _ Hrs <-.
  eapply (fold_success ls (AI.mkLoop [] 0 0 w) rs); [| | | exact Hin].
  - now apply NoDup_ids_filter.
  - intros l Hl. apply filter_In in Hl as [Hl _]. now apply in_map.
  - now rewrite Hrs.
Qed.

End BulkStore.

(** * The AI routes on the sample collection *)

Lemma sample_ids_unique : NoDup (map _id (AI.store SampleAI.world)).
Proof.
  cbn. repeat constructor; cbn; intuition discriminate.
Qed.

Lemma smart_chat_defaults_witness :
  exists t u,
    AI.calls (snd (AI.smart_chat SampleAI.offline (Some "weather in Goa")
                     None (Some "u42") None SampleAI.world))
    = (AI.calls SampleAI.world
       ++ [AI.mkCall "/agent/smart-chat"
             [("query", Some "weather in Goa"); ("thread_id", Some t);
              ("user_id", Some u); ("force_tool", None)]])%list
    /\ t <> "" /\ u <> ""
    /\ (if truthy None then None = Some t else t = "default")
    /\ (if truthy (Some "u42") then Some "u42" = Some u else u = "default").
Proof.
  apply (smart_chat_defaults SampleAI.offline SampleAI.world
           (Some "weather in Goa") None (Some "u42") None).
  reflexivity.
Defined.

Lemma extract_amenities_stores_witness :
  exists r w',
    AI.extract_amenities SampleAI.tagger SampleAI.accept_id SampleAI.accept_doc
      "64abc8" SampleAI.world = (AI.Sent r, w')
    /\ AI.message r = "Extracted 2 amenities"
    /\ AI.e_count r = List.length (AI.e_amenities r)
    /\ AI.listing_id r = "64abc8"
    /\ AI.e_success r = true
    /\ exists listing,
         AI.findById "64abc8" (AI.store SampleAI.world) = Some listing
         /\ truthy (description listing) = true
         /\ AI.calls w' = (AI.calls SampleAI.world ++ [AI.extract_call listing])%list
         /\ (exists st text data,
               SampleAI.tagger (AI.calls SampleAI.world) (AI.extract_call listing)
               = AI.Answered true st text (AI.Data data)
               /\ AI.amenities_field data = Some (AI.e_amenities r))
         /\ exists d,
              AI.findById "64abc8" (AI.store w') = Some d
              /\ amenities d = Some (AI.e_amenities r)
              /\ kept_fields d = kept_fields listing.
Proof.
  do 2 eexists. split; [reflexivity|]. split; [reflexivity|].
  apply (extract_amenities_stores SampleAI.tagger SampleAI.accept_id
           SampleAI.accept_doc "64abc8" SampleAI.world).
  reflexivity.
Defined.

Lemma extract_amenities_refusals_witness :
  AI.extract_amenities SampleAI.tagger SampleAI.accept_id SampleAI.accept_doc
    "64abc2" SampleAI.world
  = (AI.Refused 400 "Listing has no description to extract from" None,
     SampleAI.world)
  /\ SampleAI.world = SampleAI.world
  /\ ((400%N = 404%N /\ AI.findById "64abc2" (AI.store SampleAI.world) = None)
      \/ (400%N = 400%N
          /\ exists listing,
               AI.findById "64abc2" (AI.store SampleAI.world) = Some listing
               /\ truthy (description listing) = false)).
Proof.
  split; [reflexivity|].
  apply (extract_amenities_refusals SampleAI.tagger SampleAI.accept_id
           SampleAI.accept_doc "64abc2" SampleAI.world SampleAI.world 400
           "Listing has no description to extract from" None);
    [reflexivity | discriminate].
Defined.

Lemma extracted_tag_is_found_witness :
  exists w',
    snd (AI.extract_amenities SampleAI.tagger SampleAI.accept_id
           SampleAI.accept_doc "64abc8" SampleAI.world) = w'
    /\ exists d body,
         AI.findById "64abc8" (AI.store w') = Some d
         /\ search Sample.plain_regex (AI.store w') None None None (Some "WiFi")
            = Ok200 body
         /\ In (lean d) (hotels body).
Proof.
  eexists. split; [reflexivity|].
  eapply (extracted_tag_is_found SampleAI.tagger SampleAI.accept_id
            SampleAI.accept_doc Sample.plain_regex "64abc8" SampleAI.world _ _ "WiFi").
  - reflexivity.
  - right. left. reflexivity.
  - discriminate.
  - cbn. lia.
Defined.

Lemma bulk_counts_witness :
  exists rs w',
    AI.bulk_extract SampleAI.busy_after_one SampleAI.accept_doc SampleAI.world
    = (AI.Processed 3 1 1 rs, w')
    /\ map AI.status rs = ["skipped"; "success"; "failed"]
    /\ (0 < 3)%nat
    /\ 3%nat = List.length rs
    /\ 1%nat = count_status "success" rs
    /\ 1%nat = count_status "failed" rs
    /\ (1 + 1 + count_status "skipped" rs = 3)%nat.
Proof.
  do 2 eexists. split; [reflexivity|]. split; [reflexivity|].
  eapply (bulk_counts SampleAI.busy_after_one SampleAI.accept_doc SampleAI.world).
  reflexivity.
Defined.

Lemma bulk_covers_selection_witness :
  exists rs w',
    AI.bulk_extract SampleAI.busy_after_one SampleAI.accept_doc SampleAI.world
    = (AI.Processed 3 1 1 rs, w')
    /\ let selected := filter AI.lacks_amenities (AI.store SampleAI.world) in
       map AI.result_id rs = map _id selected
       /\ Forall2 (fun d r => AI.status r = "skipped" <-> described d = false)
            selected rs.
Proof.
  do 2 eexists. split; [reflexivity|].
  eapply (bulk_covers_selection SampleAI.busy_after_one SampleAI.accept_doc
            SampleAI.world).
  reflexivity.
Defined.

Lemma bulk_keeps_listed_witness :
  In Sample.beach_resort
    (AI.store (snd (AI.bulk_extract SampleAI.tagger SampleAI.accept_doc
                      SampleAI.world))).
Proof.
  apply (bulk_keeps_listed SampleAI.tagger SampleAI.accept_doc SampleAI.world
           Sample.beach_resort);
    [exact sample_ids_unique | left; reflexivity | reflexivity].
Defined.

Lemma bulk_success_stored_witness :
  exists w',
    snd (AI.bulk_extract SampleAI.busy_after_one SampleAI.accept_doc SampleAI.world)
    = w'
    /\ 2%nat = List.length ["Garden"; "WiFi"]
    /\ exists d,
         AI.findById "64abc4" (AI.store w') = Some d
         /\ amenities d = Some ["Garden"; "WiFi"].
Proof.
  eexists. split; [reflexivity|].
  eapply (bulk_success_stored SampleAI.busy_after_one SampleAI.accept_doc
            SampleAI.world _ 3 1 1 _ "64abc4" (Some "Villa") 2 ["Garden"; "WiFi"]).
  - exact sample_ids_unique.
  - reflexivity.
  - right. left. reflexivity.
Defined.

(** Saving a listing stored without an image also stores the default
    image. *)
Example save_stores_default_image :
  exists d,
    AI.findById "64abc8"
      (AI.store (snd (AI.extract_amenities SampleAI.tagger SampleAI.accept_id
                        SampleAI.accept_doc "64abc8" SampleAI.world)))
    = Some d
    /\ image SampleAI.lake_house = None
    /\ image d = Some AI.default_image
    /\ amenities d = Some ["Garden"; "WiFi"].
Proof. eexists. repeat split. Qed.
